(** * Segment service of crowd.dev: hierarchy cascades and activity configuration

    A shallow embedding of [backend/src/services/segmentService.ts].

    - JavaScript objects used as string-keyed maps are association lists kept
      in the order [Object.keys] reports (array-index keys ascending, then
      the other keys in creation order): the order of the platforms decides
      which entry the flattened view of the activity types shows. A lookup
      sees own properties only; names found on [Object.prototype] are not
      modelled.
    - Asynchronous service methods are computations in a small state and
      exception monad over a [World]: the committed rows, the open
      transactions, the call log and a schedule of collaborator failures.
      An object the service mutates in place (the custom activity types it
      has read) is a local value that the method threads through and writes
      back whole.
    - The segment repository and the transaction helper are collaborators of
      the service whose code lives in other files; they are modelled from the
      specification and marked as such. *)

From Stdlib Require Import List String Ascii Bool Arith NArith Lia.
Import ListNotations.
Open Scope string_scope.

(* ================================================================== *)
(** ** JavaScript values used by the service *)

(** A possibly absent string property ([undefined]/[null] is [None]). *)
Definition jsstring := option string.

(** JavaScript truthiness of a possibly absent string. *)
Definition truthy (s : jsstring) : bool :=
  match s with
  | None => false
  | Some v => negb (v =? "")
  end.

(** What a template literal prints for a possibly absent string. *)
Definition template (s : jsstring) : string :=
  match s with
  | None => "undefined"
  | Some v => v
  end.

(** [String.prototype.toLowerCase] on strings of the ASCII range. *)
Definition lower_ascii (c : ascii) : ascii :=
  let n := nat_of_ascii c in
  if (65 <=? n)%nat && (n <=? 90)%nat then ascii_of_nat (n + 32) else c.

Fixpoint toLowerCase (s : string) : string :=
  match s with
  | EmptyString => EmptyString
  | String c s' => String (lower_ascii c) (toLowerCase s')
  end.

(* ------------------------------------------------------------------ *)
(** *** Objects as ordered maps *)

Definition digit_val (c : ascii) : option N :=
  let n := N_of_ascii c in
  if (48 <=? n)%N && (n <=? 57)%N then Some (n - 48)%N else None.

Fixpoint digits_val (s : string) (acc : N) : option N :=
  match s with
  | EmptyString => Some acc
  | String c s' =>
      match digit_val c with
      | Some d => digits_val s' (10 * acc + d)%N
      | None => None
      end
  end.

(** The array index a property name denotes, if it is one: a canonical
    decimal numeral below 2^32 - 1. *)
Definition array_index (s : string) : option N :=
  match s with
  | EmptyString => None
  | String c s' =>
      if (c =? "0")%char then
        (if s' =? "" then Some 0%N else None)
      else
        match digits_val s 0 with
        | Some n => if (n <? 4294967295)%N then Some n else None
        | None => None
        end
  end.

Section Obj.
Context {V : Type}.

Definition obj := list (string * V).

Definition obj_empty : obj := [].

(** [o[k]]: the own property [k], if any. *)
Fixpoint obj_get (k : string) (o : obj) : option V :=
  match o with
  | [] => None
  | (k', v) :: o' => if k' =? k then Some v else obj_get k o'
  end.

Definition obj_has (k : string) (o : obj) : bool :=
  match obj_get k o with Some _ => true | None => false end.

(** [Object.keys(o)]. *)
Definition obj_keys (o : obj) : list string := map fst o.

(** Overwrite the value of a key the object already has, in place. *)
Fixpoint obj_replace (k : string) (v : V) (o : obj) : obj :=
  match o with
  | [] => []
  | (k', v') :: o' =>
      if k' =? k then (k', v) :: o' else (k', v') :: obj_replace k v o'
  end.

(** Create an array-index property: it goes before the first key that is
    not an array index or is a larger one. *)
Fixpoint obj_add_index (n : N) (k : string) (v : V) (o : obj) : obj :=
  match o with
  | [] => [(k, v)]
  | (k', v') :: o' =>
      match array_index k' with
      | Some n' =>
          if (n <? n')%N then (k, v) :: o
          else (k', v') :: obj_add_index n k v o'
      | None => (k, v) :: o
      end
  end.

(** [o[k] = v]. *)
Definition obj_set (k : string) (v : V) (o : obj) : obj :=
  if obj_has k o then obj_replace k v o
  else
    match array_index k with
    | Some n => obj_add_index n k v o
    | None => (o ++ [(k, v)])%list
    end.

(** [delete o[k]]. *)
Definition obj_delete (k : string) (o : obj) : obj :=
  filter (fun kv => negb (fst kv =? k)) o.

(** [{...a, ...b}]: a fresh object receiving the properties of [a], then
    those of [b]. *)
Definition obj_assign (target source : obj) : obj :=
  fold_left (fun acc kv => obj_set (fst kv) (snd kv) acc) source target.

Definition obj_spread (a b : obj) : obj :=
  obj_assign (obj_assign obj_empty a) b.

(** Distinct property names, as every JavaScript object has. *)
Fixpoint distinct (l : list string) : bool :=
  match l with
  | [] => true
  | k :: l' => negb (existsb (String.eqb k) l') && distinct l'
  end.

Definition obj_wf (o : obj) : bool := distinct (obj_keys o).
End Obj.

Arguments obj V : clear implicits.

(* ================================================================== *)
(** ** Activity types *)

(** [{ default, short, channel }] *)
Record Display := mkDisplay {
  display_default : string;
  display_short : string;
  display_channel : string
}.

(** The settings of one activity type: [{ display, isContribution }]. *)
Record TypeSettings := mkTypeSettings {
  display : Display;
  isContribution : bool
}.

(** A platform's type map; [None] is a platform whose value is [null]. *)
Definition PlatformTypes := option (obj TypeSettings).

(** [customActivityTypes]: platform, then type key. *)
Definition CustomActivityTypes := obj PlatformTypes.

(** [ActivityTypeSettings]: [{ default, custom }]. *)
Record ActivityTypeSettings := mkActivityTypes {
  default : CustomActivityTypes;
  custom : CustomActivityTypes
}.

(** An entry of the flattened view: [{...settings, platform}]. *)
Record UnnestedType := mkUnnested {
  settings : TypeSettings;
  platform : string
}.

Definition UnnestedActivityTypes := obj UnnestedType.

(** [activityTypes.custom[platform]] where the value is a type map. *)
Definition platform_types (c : CustomActivityTypes) (p : string)
  : obj TypeSettings :=
  match obj_get p c with
  | Some (Some m) => m
  | _ => obj_empty
  end.

(** The filter callback [(k) => activityTypes.custom[k]]. *)
Definition platform_truthy (c : CustomActivityTypes) (p : string) : bool :=
  match obj_get p c with
  | Some (Some _) => true
  | _ => false
  end.

(** The inner reduce of [unnestActivityTypes] for one platform. *)
Definition unnestWithPlatform (c : CustomActivityTypes) (p : string)
  : UnnestedActivityTypes :=
  fold_left
    (fun acc2 key =>
       match obj_get key (platform_types c p) with
       | Some s => obj_set key (mkUnnested s p) acc2
       | None => acc2
       end)
    (obj_keys (platform_types c p)) obj_empty.

(** [SegmentService.unnestActivityTypes]. *)
Definition unnestActivityTypes (a : ActivityTypeSettings)
  : UnnestedActivityTypes :=
  fold_left
    (fun acc p => obj_spread acc (unnestWithPlatform (custom a) p))
    (filter (platform_truthy (custom a)) (obj_keys (custom a)))
    obj_empty.

(** The display object every create and update builds from [data.type]. *)
Definition fresh_settings (type : string) : TypeSettings :=
  mkTypeSettings (mkDisplay type type "") false.

(** [if (!custom[p]) custom[p] = {}]. *)
Definition ensure_platform (p : string) (c : CustomActivityTypes)
  : CustomActivityTypes :=
  if negb (platform_truthy c p) then obj_set p (Some obj_empty) c else c.

(** [custom[p][k] = s], for a platform whose value is a type map. *)
Definition nested_set (p k : string) (s : TypeSettings)
    (c : CustomActivityTypes) : CustomActivityTypes :=
  obj_set p (Some (obj_set k s (platform_types c p))) c.


(** [delete custom[p][k]], for a platform whose value is a type map. *)
Definition nested_delete (p k : string) (c : CustomActivityTypes)
  : CustomActivityTypes :=
  obj_set p (Some (obj_delete k (platform_types c p))) c.

(** [custom[p][k]], when [custom[p]] is a type map. *)
Definition nested_get (p k : string) (c : CustomActivityTypes)
  : option TypeSettings :=
  obj_get k (platform_types c p).

(** [activityChannels]: platform, then the channels in insertion order. *)
Definition ActivityChannels := obj (list string).

(** [channelList.includes(channel)]. *)
Definition includes (channelList : list string) (channel : string) : bool :=
  existsb (String.eqb channel) channelList.

(** The new channel map computed by [updateActivityChannels]. *)
Definition add_channel (p channel : string) (ac : ActivityChannels)
  : ActivityChannels :=
  match obj_get p ac with
  | Some channelList =>
      if negb (includes channelList channel)
      then obj_set p (channelList ++ [channel])%list ac
      else ac
  | None => obj_set p [channel] ac
  end.

(* ================================================================== *)
(** ** Segments *)

Inductive SegmentLevel := PROJECT_GROUP | PROJECT | SUBPROJECT.

Definition level_eqb (a b : SegmentLevel) : bool :=
  match a, b with
  | PROJECT_GROUP, PROJECT_GROUP | PROJECT, PROJECT | SUBPROJECT, SUBPROJECT =>
      true
  | _, _ => false
  end.

(** [SegmentData], as far as the service reads it; [rest] stands for the
    remaining properties, which an object spread carries along. *)
Record SegmentData := mkSegmentData {
  name : jsstring;
  slug : jsstring;
  parentSlug : jsstring;
  parentName : jsstring;
  grandparentSlug : jsstring;
  grandparentName : jsstring;
  rest : list (string * string)
}.

(** [SegmentUpdateData]: a property that is [None] is left as it is. *)
Record SegmentUpdateData := mkUpdateData {
  u_name : jsstring;
  u_slug : jsstring;
  u_customActivityTypes : option CustomActivityTypes;
  u_activityChannels : option ActivityChannels
}.

Definition SegmentId := nat.

(** A stored segment. *)
Record Segment := mkSegment {
  id : SegmentId;
  level : SegmentLevel;
  data : SegmentData;
  customActivityTypes : CustomActivityTypes;
  activityChannels : ActivityChannels
}.

(** [{ ...data, parentSlug: data.slug, parentName: data.name }] *)
Definition project_counterpart (d : SegmentData) : SegmentData :=
  mkSegmentData (name d) (slug d) (slug d) (name d)
    (grandparentSlug d) (grandparentName d) (rest d).

(** [{ ...data, parentSlug: data.slug, grandparentSlug: data.slug,
       parentName: data.name, grandparentName: data.name }] *)
Definition subproject_counterpart (d : SegmentData) : SegmentData :=
  mkSegmentData (name d) (slug d) (slug d) (name d) (slug d) (name d) (rest d).

(** [{ ...data, parentSlug: data.slug, grandparentSlug: data.parentSlug,
       name: data.name, parentName: data.name }] *)
Definition project_subproject_counterpart (d : SegmentData) : SegmentData :=
  mkSegmentData (name d) (slug d) (slug d) (name d)
    (parentSlug d) (grandparentName d) (rest d).

(* ================================================================== *)
(** ** Errors, calls and the world *)

Inductive Exn :=
| JsError (message : string)
| Error400 (language : string) (messageKey : string) (args : list string)
| TypeError (message : string)
| Failure (what : string).

Definition TxId := nat.

(** Modelled from the spec: the handle [createTransaction] returns
    ([sequelizeRepository.ts] is not among the sources). The service passes
    the handle itself to [commitTransaction] and its [transaction] property
    to [rollbackTransaction]; both are taken to designate the same open
    transaction. *)
Record Transaction := mkTransaction { transaction : TxId }.

(** The calls the service makes to its collaborators. *)
Inductive Call :=
| CreateTransaction
| CommitTransaction (t : TxId)
| RollbackTransaction (t : TxId)
| RepoCreate (tx : option TxId) (d : SegmentData)
| RepoUpdate (tx : option TxId) (i : SegmentId) (d : SegmentUpdateData)
| RepoUpdateChildrenBulk (tx : option TxId) (i : SegmentId) (n s : jsstring)
| RepoFindById (tx : option TxId) (i : SegmentId)
| RepoFindBySlug (tx : option TxId) (s : string) (l : SegmentLevel).

(** Modelled from the spec: an open transaction, with the rows it started
    from and the rows it sees ([sequelizeRepository.ts] is not among the
    sources). *)
Record TxState := mkTxState {
  base : list Segment;
  work : list Segment
}.

(** Modelled from the spec: the store behind the repository
    ([segmentRepository.ts] is not among the sources). Writes made through a
    transaction stay in it until it is committed. *)
Record Store := mkStore {
  committed : list Segment;
  open : list (TxId * TxState);
  next_id : SegmentId;
  next_tx : TxId
}.

(** [this.options], as far as the service and its collaborators read it. *)
Record Options := mkOptions {
  currentSegments : list SegmentId;
  defaultActivityTypes : CustomActivityTypes;
  language : string
}.

(** The world a service call runs in. [faults] schedules the outcome of the
    collaborator calls to come: the n-th entry [Some e] makes the n-th call
    throw [e]; [None], or no entry, lets it succeed. [calls] records the
    calls made, oldest first. *)
Record World := mkWorld {
  store : Store;
  options : Options;
  faults : list (option Exn);
  calls : list Call
}.

Definition with_store (s : Store) (w : World) : World :=
  mkWorld s (options w) (faults w) (calls w).

Inductive Result (A : Type) :=
| Ok (a : A)
| Throw (e : Exn).
Arguments Ok {A} a.
Arguments Throw {A} e.

(** Computations of the service. *)
Definition M (A : Type) := World -> Result A * World.

Definition ret {A} (a : A) : M A := fun w => (Ok a, w).

Definition throw {A} (e : Exn) : M A := fun w => (Throw e, w).

Definition bind {A B} (m : M A) (f : A -> M B) : M B :=
  fun w =>
    match m w with
    | (Ok a, w') => f a w'
    | (Throw e, w') => (Throw e, w')
    end.

(** [try { body } catch (error) { handler }]. *)
Definition try_catch {A} (body : M A) (handler : Exn -> M A) : M A :=
  fun w =>
    match body w with
    | (Ok a, w') => (Ok a, w')
    | (Throw e, w') => handler e w'
    end.

Declare Scope service_scope.
Delimit Scope service_scope with service.
Notation "x <- c1 ;; c2" := (bind c1 (fun x => c2))
  (at level 100, c1 at next level, right associativity) : service_scope.
Notation "c1 ;;; c2" := (bind c1 (fun _ => c2))
  (at level 100, right associativity) : service_scope.
Open Scope service_scope.

(** A call to a collaborator: it is recorded, takes its scheduled outcome,
    and runs when that outcome is not a failure. *)
Definition collaborator {A} (c : Call) (body : M A) : M A :=
  fun w =>
    let w1 := mkWorld (store w) (options w) (tl (faults w))
                (calls w ++ [c])%list in
    match faults w with
    | Some e :: _ => (Throw e, w1)
    | _ => body w1
    end.

(* ================================================================== *)
(** ** The collaborators *)

(** Modelled from the spec: the level [create] gives a row
    ([segmentRepository.ts] is not among the sources). A project group has no
    parent and no grandparent set, a project has a parent only, a subproject
    has both. *)
Definition level_of (d : SegmentData) : SegmentLevel :=
  if truthy (parentSlug d) then
    (if truthy (grandparentSlug d) then SUBPROJECT else PROJECT)
  else PROJECT_GROUP.

(** Modelled from the spec: [SegmentRepository.isSubproject]
    ([segmentRepository.ts] is not among the sources). *)
Definition isSubproject (s : Segment) : bool := level_eqb (level s) SUBPROJECT.

Definition find_segment (i : SegmentId) (rows : list Segment)
  : option Segment :=
  find (fun s => id s =? i)%nat rows.

Definition jsstring_eqb (a b : jsstring) : bool :=
  match a, b with
  | Some x, Some y => x =? y
  | None, None => true
  | _, _ => false
  end.

Definition find_slug (s : string) (l : SegmentLevel) (rows : list Segment)
  : option Segment :=
  find (fun r => jsstring_eqb (slug (data r)) (Some s) && level_eqb (level r) l)
    rows.

Fixpoint tx_lookup (t : TxId) (txs : list (TxId * TxState)) : option TxState :=
  match txs with
  | [] => None
  | (t', st) :: txs' => if (t' =? t)%nat then Some st else tx_lookup t txs'
  end.

Definition tx_remove (t : TxId) (txs : list (TxId * TxState))
  : list (TxId * TxState) :=
  filter (fun e => negb (fst e =? t)%nat) txs.

Fixpoint tx_store (t : TxId) (st : TxState) (txs : list (TxId * TxState))
  : list (TxId * TxState) :=
  match txs with
  | [] => []
  | (t', st') :: txs' =>
      if (t' =? t)%nat then (t', st) :: txs' else (t', st') :: tx_store t st txs'
  end.

(** The rows a repository bound to [tx] reads: those of its transaction, or
    the committed ones without a transaction. *)
Definition view (tx : option TxId) (s : Store) : option (list Segment) :=
  match tx with
  | None => Some (committed s)
  | Some t => option_map work (tx_lookup t (open s))
  end.

(** The rows as they were when [tx] began. *)
Definition view_base (tx : option TxId) (s : Store) : list Segment :=
  match tx with
  | None => committed s
  | Some t =>
      match tx_lookup t (open s) with
      | Some st => base st
      | None => []
      end
  end.

Definition write (tx : option TxId) (rows : list Segment) (s : Store) : Store :=
  match tx with
  | None => mkStore rows (open s) (next_id s) (next_tx s)
  | Some t =>
      mkStore (committed s)
        (tx_store t (mkTxState (view_base tx s) rows) (open s))
        (next_id s) (next_tx s)
  end.

Definition bump_id (s : Store) : Store :=
  mkStore (committed s) (open s) (S (next_id s)) (next_tx s).

Definition closed_transaction : Exn := Failure "transaction is not open".
Definition row_not_found : Exn := Failure "segment not found".

(** A collaborator call that reads or writes the rows [tx] sees. *)
Definition on_view {A} (c : Call) (tx : option TxId)
    (k : list Segment -> M A) : M A :=
  collaborator c
    (fun w =>
       match view tx (store w) with
       | Some rows => k rows w
       | None => (Throw closed_transaction, w)
       end).

Definition put_rows (tx : option TxId) (rows : list Segment) : M unit :=
  fun w => (Ok tt, with_store (write tx rows (store w)) w).

(** Modelled from the spec: [segmentRepository.create(data) -> Segment]
    ([segmentRepository.ts] is not among the sources). The row gets a fresh
    id, the level its parent fields give it, and empty configuration. *)
Definition repo_create (tx : option TxId) (d : SegmentData) : M Segment :=
  on_view (RepoCreate tx d) tx
    (fun rows w =>
       let seg := mkSegment (next_id (store w)) (level_of d) d
                    obj_empty obj_empty in
       (Ok seg,
        with_store (bump_id (write tx (rows ++ [seg])%list (store w))) w)).

Definition or_keep {A} (new : option A) (old : A) : A :=
  match new with
  | Some v => v
  | None => old
  end.

Definition or_keep_string (new old : jsstring) : jsstring :=
  match new with
  | Some _ => new
  | None => old
  end.

(** Modelled from the spec: the row after [update(id, data)]
    ([segmentRepository.ts] is not among the sources). *)
Definition apply_update (u : SegmentUpdateData) (s : Segment) : Segment :=
  let d := data s in
  mkSegment (id s) (level s)
    (mkSegmentData (or_keep_string (u_name u) (name d))
       (or_keep_string (u_slug u) (slug d))
       (parentSlug d) (parentName d) (grandparentSlug d) (grandparentName d)
       (rest d))
    (or_keep (u_customActivityTypes u) (customActivityTypes s))
    (or_keep (u_activityChannels u) (activityChannels s)).

Definition map_row (i : SegmentId) (f : Segment -> Segment)
    (rows : list Segment) : list Segment :=
  map (fun s => if (id s =? i)%nat then f s else s) rows.

(** Modelled from the spec: [segmentRepository.update(id, data) -> Segment]
    ([segmentRepository.ts] is not among the sources). The given properties
    of the row are overwritten and the new row is returned; there must be a
    row to return. *)
Definition repo_update (tx : option TxId) (i : SegmentId)
    (u : SegmentUpdateData) : M Segment :=
  on_view (RepoUpdate tx i u) tx
    (fun rows =>
       match find_segment i rows with
       | Some s =>
           put_rows tx (map_row i (apply_update u) rows) ;;;
           ret (apply_update u s)
       | None => throw row_not_found
       end).

(** Modelled from the spec: the direct children of a segment
    ([segmentRepository.ts] is not among the sources). A child is one level
    below and carries the parent's slug chain in its parent fields. *)
Definition is_direct_child (parent child : Segment) : bool :=
  match level parent with
  | PROJECT_GROUP =>
      level_eqb (level child) PROJECT
      && jsstring_eqb (parentSlug (data child)) (slug (data parent))
  | PROJECT =>
      level_eqb (level child) SUBPROJECT
      && jsstring_eqb (parentSlug (data child)) (slug (data parent))
      && jsstring_eqb (grandparentSlug (data child)) (parentSlug (data parent))
  | SUBPROJECT => false
  end.

Definition set_parent (n s : jsstring) (c : Segment) : Segment :=
  let d := data c in
  mkSegment (id c) (level c)
    (mkSegmentData (name d) (slug d)
       (or_keep_string s (parentSlug d)) (or_keep_string n (parentName d))
       (grandparentSlug d) (grandparentName d) (rest d))
    (customActivityTypes c) (activityChannels c).

(** Modelled from the spec: the rows after the bulk update
    ([segmentRepository.ts] is not among the sources). Every row that was a
    direct child of segment [i] when the transaction began takes the given
    parent name and slug. *)
Definition children_bulk (before : list Segment) (i : SegmentId)
    (n s : jsstring) (rows : list Segment) : list Segment :=
  match find_segment i before with
  | Some parent =>
      map (fun c =>
             match find_segment (id c) before with
             | Some c0 => if is_direct_child parent c0 then set_parent n s c
                          else c
             | None => c
             end) rows
  | None => rows
  end.

(** Modelled from the spec:
    [segmentRepository.updateChildrenBulk(parentId, { name, slug })]
    ([segmentRepository.ts] is not among the sources). *)
Definition repo_updateChildrenBulk (tx : option TxId) (i : SegmentId)
    (n s : jsstring) : M unit :=
  on_view (RepoUpdateChildrenBulk tx i n s) tx
    (fun rows w =>
       put_rows tx (children_bulk (view_base tx (store w)) i n s rows) w).

(** Modelled from the spec: [segmentRepository.findById(id)], [null] when
    there is no such row ([segmentRepository.ts] is not among the sources). *)
Definition repo_findById (tx : option TxId) (i : SegmentId)
  : M (option Segment) :=
  on_view (RepoFindById tx i) tx (fun rows => ret (find_segment i rows)).

(** Modelled from the spec: [segmentRepository.findBySlug(slug, level)],
    [null] when there is no such row ([segmentRepository.ts] is not among the
    sources). *)
Definition repo_findBySlug (tx : option TxId) (s : string) (l : SegmentLevel)
  : M (option Segment) :=
  on_view (RepoFindBySlug tx s l) tx (fun rows => ret (find_slug s l rows)).

(** Modelled from the spec: [SequelizeRepository.createTransaction]
    ([sequelizeRepository.ts] is not among the sources). *)
Definition createTransaction : M Transaction :=
  collaborator CreateTransaction
    (fun w =>
       let s := store w in
       let t := next_tx s in
       (Ok (mkTransaction t),
        with_store
          (mkStore (committed s)
             (open s ++ [(t, mkTxState (committed s) (committed s))])%list
             (next_id s) (S t)) w)).

(** Modelled from the spec: [SequelizeRepository.commitTransaction]
    ([sequelizeRepository.ts] is not among the sources). The rows of the
    transaction become the committed rows, all at once. *)
Definition commitTransaction (t : Transaction) : M unit :=
  collaborator (CommitTransaction (transaction t))
    (fun w =>
       let s := store w in
       match tx_lookup (transaction t) (open s) with
       | Some st =>
           (Ok tt,
            with_store
              (mkStore (work st) (tx_remove (transaction t) (open s))
                 (next_id s) (next_tx s)) w)
       | None => (Throw closed_transaction, w)
       end).

(** Modelled from the spec: [SequelizeRepository.rollbackTransaction]
    ([sequelizeRepository.ts] is not among the sources). The rows of the
    transaction are dropped. *)
Definition rollbackTransaction (t : TxId) : M unit :=
  collaborator (RollbackTransaction t)
    (fun w =>
       let s := store w in
       match tx_lookup t (open s) with
       | Some _ =>
           (Ok tt,
            with_store
              (mkStore (committed s) (tx_remove t (open s))
                 (next_id s) (next_tx s)) w)
       | None => (Throw closed_transaction, w)
       end).

Definition not_single_segment : Exn :=
  Failure "this operation needs exactly one active segment".

(** The segments the context addresses, read from the store. *)
Definition active_segments (w : World) : list Segment :=
  flat_map (fun i => match find_segment i (committed (store w)) with
                     | Some s => [s]
                     | None => []
                     end) (currentSegments (options w)).

(** Modelled from the spec:
    [SequelizeRepository.getStrictlySingleActiveSegment]
    ([sequelizeRepository.ts] is not among the sources): the one segment the
    context addresses; it fails when there is none or more than one. *)
Definition getStrictlySingleActiveSegment : M Segment :=
  fun w =>
    match active_segments w with
    | [s] => (Ok s, w)
    | _ => (Throw not_single_segment, w)
    end.

(** [segment.activityTypes]: the stored custom types next to the defaults. *)
Definition activityTypes_of (o : Options) (s : Segment)
  : ActivityTypeSettings :=
  mkActivityTypes (defaultActivityTypes o) (customActivityTypes s).

(** Modelled from the spec: [SegmentRepository.getActivityTypes]
    ([segmentRepository.ts] is not among the sources): the configuration of
    the segment the context addresses. *)
Definition getActivityTypes : M ActivityTypeSettings :=
  fun w =>
    match active_segments w with
    | [s] => (Ok (activityTypes_of (options w) s), w)
    | _ => (Ok (mkActivityTypes (defaultActivityTypes (options w)) obj_empty), w)
    end.

(** Modelled from the spec: [SegmentRepository.getActivityChannels]
    ([segmentRepository.ts] is not among the sources). *)
Definition getActivityChannels : M ActivityChannels :=
  fun w =>
    match active_segments w with
    | [s] => (Ok (activityChannels s), w)
    | _ => (Ok obj_empty, w)
    end.

Definition getLanguage : M string := fun w => (Ok (language (options w)), w).

(* ================================================================== *)
(** ** The service *)

(** [findById(id)]: a repository without a transaction. *)
Definition findById (i : SegmentId) : M (option Segment) :=
  repo_findById None i.

(** [catch (error) { await rollbackTransaction(transaction.transaction);
    throw error }] *)
Definition rollback_and_rethrow {A} (t : Transaction) (error : Exn) : M A :=
  rollbackTransaction (transaction t) ;;;
  throw error.

(** The guarded bulk update of [update]. Reading a property of [null]
    throws a [TypeError]. *)
Definition update_children (tx : option TxId) (segment : option Segment)
    (d : SegmentUpdateData) : M unit :=
  match segment with
  | None => throw (TypeError "Cannot read properties of null")
  | Some s =>
      if negb (isSubproject s) && (truthy (u_name d) || truthy (u_slug d))
      then repo_updateChildrenBulk tx (id s) (u_name d) (u_slug d)
      else ret tt
  end.

Definition update (i : SegmentId) (d : SegmentUpdateData)
  : M (option Segment) :=
  segment <- findById i ;;
  t <- createTransaction ;;
  try_catch
    (let tx := Some (transaction t) in
     repo_update tx i d ;;;
     update_children tx segment d ;;;
     commitTransaction t ;;;
     findById i)
    (rollback_and_rethrow t).

Definition createProjectGroup (d : SegmentData) : M (option Segment) :=
  if truthy (parentSlug d) || truthy (grandparentSlug d) then
    throw (JsError "Project groups can't have parent or grandparent segments.")
  else
    t <- createTransaction ;;
    try_catch
      (let tx := Some (transaction t) in
       projectGroup <- repo_create tx d ;;
       repo_create tx (project_counterpart d) ;;;
       repo_create tx (subproject_counterpart d) ;;;
       commitTransaction t ;;;
       findById (id projectGroup))
      (rollback_and_rethrow t).

Definition createProject (d : SegmentData) : M (option Segment) :=
  if truthy (grandparentSlug d) then
    throw (JsError "Projects can't have grandparent segments.")
  else if negb (truthy (parentSlug d)) then
    throw (JsError "Missing parentSlug. Projects must belong to a project group.")
  else
    t <- createTransaction ;;
    let tx := Some (transaction t) in
    parent <- repo_findBySlug tx (template (parentSlug d)) PROJECT_GROUP ;;
    match parent with
    | None =>
        throw (JsError ("Project group " ++ template (parentName d)
                          ++ " does not exist."))
    | Some _ =>
        try_catch
          (project <- repo_create tx d ;;
           repo_create tx (project_subproject_counterpart d) ;;;
           commitTransaction t ;;;
           findById (id project))
          (rollback_and_rethrow t)
    end.

Definition createSubproject (d : SegmentData) : M (option Segment) :=
  if negb (truthy (parentSlug d)) then
    throw (JsError "Missing parentSlug. Subprojects must belong to a project.")
  else if negb (truthy (grandparentSlug d)) then
    throw (JsError
      "Missing grandparentSlug. Subprojects must belong to a project group.")
  else
    subproject <- repo_create None d ;;
    findById (id subproject).

(** [PlatformType.OTHER], the default platform of [createActivityType]. *)
Definition PlatformType_OTHER : string := "other".

Definition only_customActivityTypes (c : CustomActivityTypes)
  : SegmentUpdateData :=
  mkUpdateData None None (Some c) None.

Definition only_activityChannels (ac : ActivityChannels) : SegmentUpdateData :=
  mkUpdateData None None None (Some ac).

(** [updated.activityTypes] *)
Definition activityTypes_updated (updated : Segment) : M ActivityTypeSettings :=
  fun w => (Ok (activityTypes_of (options w) updated), w).

Definition error400 {A} (messageKey : string) (args : list string) : M A :=
  lang <- getLanguage ;;
  throw (Error400 lang messageKey args).

(** [createActivityType(data, platform = PlatformType.OTHER)], with
    [type] for [data.type]. *)
Definition createActivityType (type : jsstring) (platform_arg : option string)
  : M ActivityTypeSettings :=
  let platform := or_keep platform_arg PlatformType_OTHER in
  if negb (truthy type) then
    error400 "settings.activityTypes.errors.typeRequiredWhenCreating" []
  else
    segment <- getStrictlySingleActiveSegment ;;
    let typeKey := toLowerCase (template type) in
    let platformKey := toLowerCase platform in
    activityTypes <- getActivityTypes ;;
    let custom1 := ensure_platform platformKey (custom activityTypes) in
    if obj_has typeKey (platform_types custom1 platformKey) then
      ret (mkActivityTypes (default activityTypes) custom1)
    else
      let custom2 :=
        nested_set platformKey typeKey (fresh_settings (template type)) custom1
      in
      updated <- repo_update None (id segment)
                   (only_customActivityTypes custom2) ;;
      activityTypes_updated updated.

(** [updateActivityType(key, data)], with [type] for [data.type]. *)
Definition updateActivityType (key : string) (type : jsstring)
  : M ActivityTypeSettings :=
  if negb (truthy type) then
    error400 "settings.activityTypes.errors.typeRequiredWhenUpdating" []
  else
    segment <- getStrictlySingleActiveSegment ;;
    activityTypes <- getActivityTypes ;;
    let activityTypesUnnested := unnestActivityTypes activityTypes in
    match obj_get key activityTypesUnnested with
    | None => error400 "settings.activityTypes.errors.notFound" [key]
    | Some entry =>
        let custom' :=
          nested_set (platform entry) key (fresh_settings (template type))
            (custom activityTypes) in
        updated <- repo_update None (id segment)
                     (only_customActivityTypes custom') ;;
        activityTypes_updated updated
    end.

Definition destroyActivityType (key : string) : M ActivityTypeSettings :=
  activityTypes <- getActivityTypes ;;
  segment <- getStrictlySingleActiveSegment ;;
  let activityTypesUnnested := unnestActivityTypes activityTypes in
  match obj_get key activityTypesUnnested with
  | Some entry =>
      let custom' := nested_delete (platform entry) key (custom activityTypes) in
      updated <- repo_update None (id segment)
                   (only_customActivityTypes custom') ;;
      activityTypes_updated updated
  | None => ret activityTypes
  end.

Definition listActivityTypes : M ActivityTypeSettings := getActivityTypes.

(** [updateActivityChannels(data)], with [channel] and [platform] for
    [data.channel] and [data.platform]. *)
Definition updateActivityChannels (channel platform : jsstring)
  : M ActivityChannels :=
  if negb (truthy channel) then
    error400 "settings.activityChannels.errors.typeRequiredWhenCreating" []
  else
    segment <- getStrictlySingleActiveSegment ;;
    activityChannels0 <- getActivityChannels ;;
    let activityChannels1 :=
      add_channel (template platform) (template channel) activityChannels0 in
    updated <- repo_update None (id segment)
                 (only_activityChannels activityChannels1) ;;
    ret (activityChannels updated).

(* ------------------------------------------------------------------ *)
(** *** Worlds to run examples in *)

Definition empty_store : Store := mkStore [] [] 1 1.

Definition no_options : Options := mkOptions [] obj_empty "en".

Definition empty_world : World := mkWorld empty_store no_options [] [].

(** A world with one segment, addressed by the context. *)
Definition one_segment (c : CustomActivityTypes) (ac : ActivityChannels)
  : World :=
  mkWorld
    (mkStore
       [mkSegment 1 PROJECT_GROUP
          (mkSegmentData (Some "Acme") (Some "acme") None None None None [])
          c ac]
       [] 2 1)
    (mkOptions [1] obj_empty "en") [] [].

Definition acme : SegmentData :=
  mkSegmentData (Some "Acme") (Some "acme") None None None None
    [("url", "https://acme.example")].

(* ------------------------------------------------------------------ *)
(** *** Notions the properties are stated with *)


(** Does platform [p] map type key [k]? *)
Definition maps_key (c : CustomActivityTypes) (k p : string) : bool :=
  obj_has k (platform_types c p).

(** The platform the flattened view shows for [k]: the last one, in key
    order, that maps [k]. *)
Definition owner (c : CustomActivityTypes) (k : string) : option string :=
  find (maps_key c k) (rev (filter (platform_truthy c) (obj_keys c))).

(** No type key is mapped by two platforms. *)
Definition unique_type_keys (c : CustomActivityTypes) : Prop :=
  forall p q k, maps_key c k p = true -> maps_key c k q = true -> p = q.

(** The stored rows carry ids below the next fresh id, and the open
    transactions ids below the next fresh transaction id. *)
Definition store_wf (s : Store) : bool :=
  forallb (fun e => fst e <? next_tx s)%nat (open s)
  && forallb (fun r => id r <? next_id s)%nat (committed s).

(** The next [n] collaborator calls are not scheduled to fail. *)
Fixpoint calm (n : nat) (fs : list (option Exn)) : bool :=
  match n with
  | O => true
  | S n' =>
      match fs with
      | [] => true
      | Some _ :: _ => false
      | None :: fs' => calm n' fs'
      end
  end.





Definition star : TypeSettings := fresh_settings "Star".
Definition starred : TypeSettings := fresh_settings "Starred".

(** A configuration in which two platforms can come to map one key. *)
Definition github_then_slack : CustomActivityTypes :=
  [("github", Some obj_empty); ("slack", Some [("star", starred)])].

(** The world once call [c] has been recorded and has taken its outcome. *)
Definition after_call (c : Call) (w : World) : World :=
  mkWorld (store w) (options w) (tl (faults w)) (calls w ++ [c])%list.

(** The world after [n] further calls [cs] that left the rows as [s]. *)
Definition after_calls (cs : list Call) (s : Store) (w : World) : World :=
  mkWorld s (options w) (skipn (List.length cs) (faults w)) (calls w ++ cs)%list.

Definition set_customActivityTypes (c : CustomActivityTypes) (s : Segment)
  : Segment :=
  apply_update (only_customActivityTypes c) s.

Definition set_activityChannels (ac : ActivityChannels) (s : Segment)
  : Segment :=
  apply_update (only_activityChannels ac) s.

Definition set_committed (rows : list Segment) (s : Store) : Store :=
  mkStore rows (open s) (next_id s) (next_tx s).


(** A world in which transaction [t], opened last, started from the rows
    [b] and now sees the rows [wk]. *)
Definition tx_world (cm : list Segment) (op : list (TxId * TxState))
    (t : TxId) (b wk : list Segment) (n : SegmentId) (nt : TxId)
    (o : Options) (fs : list (option Exn)) (cl : list Call) : World :=
  mkWorld (mkStore cm (op ++ [(t, mkTxState b wk)])%list n nt) o fs cl.

(** The row [create] makes of [d] when the next fresh id is [n]. *)
Definition new_segment (n : SegmentId) (d : SegmentData) : Segment :=
  mkSegment n (level_of d) d obj_empty obj_empty.

(** A project group and its parent in the store, to create a project in. *)
Definition web : SegmentData :=
  mkSegmentData (Some "Web") (Some "web") (Some "acme") (Some "Acme")
    None None [].

Definition acme_world (fs : list (option Exn)) : World :=
  mkWorld (mkStore [new_segment 1 acme] [] 2 1) no_options fs [].

(* ================================================================== *)
(** ** Objects: lookup after each operation *)

Section ObjFacts.
Context {V : Type}.
Implicit Types (o : obj V) (k : string) (v : V).

Lemma obj_has_get k o : obj_has k o = true <-> obj_get k o <> None.
Proof.
  unfold obj_has. destruct (obj_get k o); split; intros; congruence.
Qed.

Lemma obj_has_false k o : obj_has k o = false <-> obj_get k o = None.
Proof.
  unfold obj_has. destruct (obj_get k o); split; intros; congruence.
Qed.

Lemma obj_has_keys k o : obj_has k o = existsb (String.eqb k) (obj_keys o).
Proof.
  unfold obj_has. induction o as [|[k' v'] o IH]; simpl; auto.
  rewrite (String.eqb_sym k k'). destruct (k' =? k); auto.
Qed.

Lemma obj_get_In k o : obj_get k o <> None <-> In k (obj_keys o).
Proof.
  induction o as [|[k' v'] o IH]; simpl.
  - split; [congruence | tauto].
  - destruct (k' =? k) eqn:E.
    + apply String.eqb_eq in E. split; [auto | congruence].
    + apply String.eqb_neq in E. rewrite IH. split; [auto | tauto].
Qed.

Lemma obj_get_replace k v o k' :
  obj_get k' (obj_replace k v o)
  = if k =? k' then (if obj_has k o then Some v else None) else obj_get k' o.
Proof.
  unfold obj_has. induction o as [|[k1 v1] o IH]; simpl.
  - destruct (k =? k'); reflexivity.
  - destruct (k1 =? k) eqn:E1; simpl.
    + apply String.eqb_eq in E1. subst k1.
      destruct (k =? k'); reflexivity.
    + rewrite IH. destruct (k =? k') eqn:E2; auto.
      apply String.eqb_eq in E2. subst k'. rewrite E1. reflexivity.
Qed.

Lemma obj_keys_replace k v o : obj_keys (obj_replace k v o) = obj_keys o.
Proof.
  unfold obj_keys. induction o as [|[k1 v1] o IH]; simpl; auto.
  destruct (k1 =? k); simpl; congruence.
Qed.

(** A new property goes somewhere in the object, the others stay. *)
Lemma obj_add_index_split n k v o :
  exists o1 o2, o = (o1 ++ o2)%list
                /\ obj_add_index n k v o = (o1 ++ (k, v) :: o2)%list.
Proof.
  induction o as [|[k1 v1] o IH]; simpl.
  - exists [], []. auto.
  - destruct (array_index k1) as [n'|].
    + destruct (n <? n')%N.
      * exists [], ((k1, v1) :: o). auto.
      * destruct IH as (o1 & o2 & -> & ->).
        exists ((k1, v1) :: o1), o2. auto.
    + exists [], ((k1, v1) :: o). auto.
Qed.

Lemma obj_set_new_split k v o :
  obj_has k o = false ->
  exists o1 o2, o = (o1 ++ o2)%list
                /\ obj_set k v o = (o1 ++ (k, v) :: o2)%list.
Proof.
  intros H. unfold obj_set. rewrite H.
  destruct (array_index k) as [n|].
  - apply obj_add_index_split.
  - exists o, []. rewrite app_nil_r. auto.
Qed.

Lemma obj_get_app k o1 o2 :
  obj_get k (o1 ++ o2)%list
  = match obj_get k o1 with Some v => Some v | None => obj_get k o2 end.
Proof.
  induction o1 as [|[k1 v1] o1 IH]; simpl; auto.
  destruct (k1 =? k); auto.
Qed.

(** [o[k] = v; o[k']] *)
Lemma obj_get_set k v o k' :
  obj_get k' (obj_set k v o) = if k =? k' then Some v else obj_get k' o.
Proof.
  destruct (obj_has k o) eqn:H.
  - unfold obj_set. rewrite H, obj_get_replace, H. reflexivity.
  - destruct (obj_set_new_split k v o H) as (o1 & o2 & E & ->).
    subst o. apply obj_has_false in H. rewrite obj_get_app in H.
    rewrite !obj_get_app. simpl. destruct (k =? k') eqn:E.
    + apply String.eqb_eq in E. subst k'.
      destruct (obj_get k o1); [discriminate | reflexivity].
    + reflexivity.
Qed.

Lemma obj_get_set_same k v o : obj_get k (obj_set k v o) = Some v.
Proof. rewrite obj_get_set, String.eqb_refl. reflexivity. Qed.

Lemma obj_get_set_other k v o k' :
  k <> k' -> obj_get k' (obj_set k v o) = obj_get k' o.
Proof.
  intros H. rewrite obj_get_set. apply String.eqb_neq in H. rewrite H. auto.
Qed.

(** [delete o[k]; o[k']] *)
Lemma obj_get_delete k o k' :
  obj_get k' (obj_delete k o) = if k =? k' then None else obj_get k' o.
Proof.
  unfold obj_delete. induction o as [|[k1 v1] o IH]; simpl.
  - destruct (k =? k'); reflexivity.
  - destruct (k1 =? k) eqn:E1; simpl.
    + apply String.eqb_eq in E1. subst k1. rewrite IH.
      destruct (k =? k'); reflexivity.
    + rewrite IH. destruct (k =? k') eqn:E2; auto.
      apply String.eqb_eq in E2. subst k'. rewrite E1. reflexivity.
Qed.

(** Setting a property an object has keeps its key order. *)
Lemma obj_keys_set_present k v o :
  obj_has k o = true -> obj_keys (obj_set k v o) = obj_keys o.
Proof.
  intros H. unfold obj_set. rewrite H. apply obj_keys_replace.
Qed.

Lemma obj_set_NoDup k v o :
  NoDup (obj_keys o) -> NoDup (obj_keys (obj_set k v o)).
Proof.
  intros H. destruct (obj_has k o) eqn:E.
  - rewrite obj_keys_set_present; auto.
  - destruct (obj_set_new_split k v o E) as (o1 & o2 & Eo & ->).
    subst o. unfold obj_keys in *. rewrite map_app in *. simpl.
    apply (NoDup_Add (Add_app k (map fst o1) (map fst o2))).
    split; auto.
    apply obj_has_false in E. intros HIn.
    assert (Hk : In k (obj_keys (o1 ++ o2)%list))
      by (unfold obj_keys; rewrite map_app; exact HIn).
    apply obj_get_In in Hk. auto.
Qed.

(** [Object.assign(target, source)] read at [k]. *)
Lemma obj_get_assign k (source : obj V) : forall target,
  NoDup (obj_keys source) ->
  obj_get k (obj_assign target source)
  = match obj_get k source with
    | Some v => Some v
    | None => obj_get k target
    end.
Proof.
  unfold obj_assign.
  induction source as [|[k1 v1] s IH]; simpl; intros target Hnd; auto.
  inversion Hnd as [|? ? Hnin Hnd']; subst.
  rewrite IH by assumption. rewrite obj_get_set.
  destruct (k1 =? k) eqn:E; auto.
  apply String.eqb_eq in E. subst k1.
  destruct (obj_get k s) eqn:G; auto.
  exfalso. apply Hnin. apply obj_get_In. congruence.
Qed.

Lemma obj_assign_NoDup (source : obj V) : forall target,
  NoDup (obj_keys target) -> NoDup (obj_keys (obj_assign target source)).
Proof.
  unfold obj_assign. induction source as [|[k1 v1] s IH]; simpl; auto.
  intros target H. apply IH. apply obj_set_NoDup. exact H.
Qed.

(** [{...a, ...b}[k]] *)
Lemma obj_get_spread k (a b : obj V) :
  NoDup (obj_keys a) -> NoDup (obj_keys b) ->
  obj_get k (obj_spread a b)
  = match obj_get k b with Some v => Some v | None => obj_get k a end.
Proof.
  intros Ha Hb. unfold obj_spread.
  rewrite obj_get_assign by assumption.
  rewrite obj_get_assign by assumption.
  destruct (obj_get k b), (obj_get k a); reflexivity.
Qed.

Lemma obj_spread_NoDup (a b : obj V) : NoDup (obj_keys (obj_spread a b)).
Proof.
  unfold obj_spread. apply obj_assign_NoDup, obj_assign_NoDup. constructor.
Qed.
End ObjFacts.

(* ================================================================== *)
(** ** The flattened view *)

Lemma find_app {A} (f : A -> bool) (l1 l2 : list A) :
  find f (l1 ++ l2)%list
  = match find f l1 with Some x => Some x | None => find f l2 end.
Proof.
  induction l1 as [|x l1 IH]; simpl; auto. destruct (f x); auto.
Qed.

Lemma find_all_false {A} (f : A -> bool) (l : list A) :
  (forall x, In x l -> f x = false) -> find f l = None.
Proof.
  induction l as [|x l IH]; simpl; intros H; auto.
  rewrite (H x) by auto. apply IH. intros y Hy. apply H. auto.
Qed.


Section Flatten.
Variable c : CustomActivityTypes.

(** The inner reduce, read at [k], for any list of keys it runs over. *)
Lemma unnest_keys_get (p k : string) : forall l acc,
  obj_get k
    (fold_left
       (fun acc2 key =>
          match obj_get key (platform_types c p) with
          | Some s => obj_set key (mkUnnested s p) acc2
          | None => acc2
          end) l acc)
  = if existsb (String.eqb k) l then
      match nested_get p k c with
      | Some s => Some (mkUnnested s p)
      | None => obj_get k acc
      end
    else obj_get k acc.
Proof.
  unfold nested_get.
  induction l as [|a l IH]; simpl; intros acc; auto.
  rewrite IH. destruct (k =? a) eqn:E.
  - apply String.eqb_eq in E. subst a. simpl.
    destruct (obj_get k (platform_types c p)) as [s|] eqn:G.
    + rewrite obj_get_set_same. destruct (existsb _ l); reflexivity.
    + destruct (existsb _ l); reflexivity.
  - simpl. destruct (obj_get a (platform_types c p)) as [s|] eqn:G; auto.
    rewrite obj_get_set_other; auto.
    intros ->. rewrite String.eqb_refl in E. discriminate.
Qed.

Lemma unnestWithPlatform_get p k :
  obj_get k (unnestWithPlatform c p)
  = option_map (fun s => mkUnnested s p) (nested_get p k c).
Proof.
  unfold unnestWithPlatform. rewrite unnest_keys_get.
  rewrite <- obj_has_keys. unfold obj_has, nested_get.
  destruct (obj_get k (platform_types c p)); reflexivity.
Qed.

Lemma unnestWithPlatform_NoDup p : NoDup (obj_keys (unnestWithPlatform c p)).
Proof.
  unfold unnestWithPlatform.
  assert (H : forall l (acc : UnnestedActivityTypes),
             NoDup (obj_keys acc) ->
             NoDup (obj_keys
               (fold_left
                  (fun acc2 key =>
                     match obj_get key (platform_types c p) with
                     | Some s => obj_set key (mkUnnested s p) acc2
                     | None => acc2
                     end) l acc))).
  { induction l as [|a l IH]; simpl; intros acc Hacc; auto.
    apply IH. destruct (obj_get a (platform_types c p)); auto.
    apply obj_set_NoDup. exact Hacc. }
  apply H. constructor.
Qed.

Lemma maps_key_get k p :
  maps_key c k p = true <-> nested_get p k c <> None.
Proof. apply obj_has_get. Qed.

(** The outer reduce, read at [k], for any list of platforms. *)
Lemma unnest_platforms_get (k : string) : forall ps acc,
  NoDup (obj_keys acc) ->
  obj_get k
    (fold_left (fun acc p => obj_spread acc (unnestWithPlatform c p)) ps acc)
  = match find (maps_key c k) (rev ps) with
    | Some p => option_map (fun s => mkUnnested s p) (nested_get p k c)
    | None => obj_get k acc
    end.
Proof.
  induction ps as [|p ps IH]; simpl; intros acc Hacc; auto.
  rewrite IH by apply obj_spread_NoDup.
  rewrite find_app. destruct (find (maps_key c k) (rev ps)); auto.
  rewrite obj_get_spread by (auto using unnestWithPlatform_NoDup).
  rewrite unnestWithPlatform_get. simpl.
  unfold maps_key, obj_has, nested_get.
  destruct (obj_get k (platform_types c p)) eqn:G; simpl; rewrite ?G;
    reflexivity.
Qed.

(** The flattened view shows, for each key, the settings its owner has. *)
Lemma unnest_get d k :
  obj_get k (unnestActivityTypes (mkActivityTypes d c))
  = match owner c k with
    | Some p => option_map (fun s => mkUnnested s p) (nested_get p k c)
    | None => None
    end.
Proof.
  unfold unnestActivityTypes, owner. simpl.
  rewrite unnest_platforms_get by constructor. reflexivity.
Qed.

Lemma owner_maps k p : owner c k = Some p -> maps_key c k p = true.
Proof. unfold owner. intros H. apply find_some in H. tauto. Qed.

Lemma owner_none k p : owner c k = None -> maps_key c k p = false.
Proof.
  unfold owner. intros H.
  destruct (maps_key c k p) eqn:E; auto. exfalso.
  assert (Hp : In p (rev (filter (platform_truthy c) (obj_keys c)))).
  { rewrite <- in_rev. apply filter_In.
    unfold maps_key, obj_has, platform_types, platform_truthy in *.
    destruct (obj_get p c) as [[m|]|] eqn:G; try discriminate.
    split; auto. apply obj_get_In. congruence. }
  pose proof (find_none _ _ H p Hp). congruence.
Qed.

(** An entry of the flattened view names a platform that maps the key. *)
Lemma unnest_entry d k e :
  obj_get k (unnestActivityTypes (mkActivityTypes d c)) = Some e ->
  maps_key c k (platform e) = true
  /\ nested_get (platform e) k c = Some (settings e).
Proof.
  rewrite unnest_get. destruct (owner c k) as [p|] eqn:O; [|discriminate].
  apply owner_maps in O.
  destruct (nested_get p k c) as [s|] eqn:G; simpl; [|discriminate].
  intros H. inversion H. subst e. simpl. auto.
Qed.

Lemma unnest_absent d k p :
  obj_get k (unnestActivityTypes (mkActivityTypes d c)) = None ->
  nested_get p k c = None.
Proof.
  rewrite unnest_get. destruct (owner c k) as [q|] eqn:O.
  - apply owner_maps in O. apply maps_key_get in O.
    destruct (nested_get q k c); [discriminate | congruence].
  - intros _. apply (owner_none k p) in O.
    unfold maps_key in O. apply obj_has_false in O. exact O.
Qed.
End Flatten.

(** Lookups in the nested structure after its three updates. *)
Lemma platform_types_set p m c q :
  platform_types (obj_set p (Some m) c) q
  = if p =? q then m else platform_types c q.
Proof.
  unfold platform_types. rewrite obj_get_set. destruct (p =? q); reflexivity.
Qed.

Lemma nested_get_set p k s c q k' :
  nested_get q k' (nested_set p k s c)
  = if p =? q then (if k =? k' then Some s else nested_get p k' c)
    else nested_get q k' c.
Proof.
  unfold nested_get, nested_set. rewrite platform_types_set.
  destruct (p =? q); auto. apply obj_get_set.
Qed.

Lemma nested_get_delete p k c q k' :
  nested_get q k' (nested_delete p k c)
  = if p =? q then (if k =? k' then None else nested_get p k' c)
    else nested_get q k' c.
Proof.
  unfold nested_get, nested_delete. rewrite platform_types_set.
  destruct (p =? q); auto. apply obj_get_delete.
Qed.







(* ================================================================== *)
(** ** Collaborator calls, one at a time *)

Lemma calm_le n m fs : (m <= n)%nat -> calm n fs = true -> calm m fs = true.
Proof.
  revert m fs. induction n as [|n IH]; intros m fs Hle H.
  - replace m with O by lia. reflexivity.
  - destruct m as [|m]; [reflexivity|].
    destruct fs as [|[e|] fs]; simpl in *; try discriminate; auto.
    apply IH; [lia | exact H].
Qed.

Lemma collaborator_ok {A} (c : Call) (body : M A) w :
  calm 1 (faults w) = true -> collaborator c body w = body (after_call c w).
Proof.
  unfold collaborator, after_call.
  destruct (faults w) as [|[e|] fs]; simpl; intros H;
    [reflexivity | discriminate | reflexivity].
Qed.

Lemma collaborator_fault {A} (c : Call) (body : M A) w e fs :
  faults w = Some e :: fs -> collaborator c body w = (Throw e, after_call c w).
Proof. unfold collaborator, after_call. intros ->. reflexivity. Qed.

Lemma find_segment_id i rows s : find_segment i rows = Some s -> id s = i.
Proof.
  unfold find_segment. intros H. apply find_some in H.
  destruct H as [_ H]. apply Nat.eqb_eq in H. exact H.
Qed.

Lemma find_segment_map_row i j f rows :
  (forall r, id (f r) = id r) ->
  find_segment i (map_row j f rows)
  = option_map (fun r => if (id r =? j)%nat then f r else r)
      (find_segment i rows).
Proof.
  intros Hid. unfold find_segment, map_row.
  induction rows as [|r rows IH]; simpl; auto.
  destruct (id r =? j)%nat eqn:E; rewrite ?Hid;
    destruct (id r =? i)%nat eqn:E'; simpl; rewrite ?E; auto.
Qed.

(** The one segment the context addresses is a stored row. *)
Lemma active_single_find w s :
  active_segments w = [s] -> find_segment (id s) (committed (store w)) = Some s.
Proof.
  unfold active_segments.
  induction (currentSegments (options w)) as [|i l IH]; simpl;
    [discriminate|].
  destruct (find_segment i (committed (store w))) as [r|] eqn:F; simpl; auto.
  intros H. inversion H. subst r.
  rewrite (find_segment_id _ _ _ F). exact F.
Qed.


(** A successful [update] outside any transaction. *)
Lemma repo_update_committed w s u :
  calm 1 (faults w) = true ->
  find_segment (id s) (committed (store w)) = Some s ->
  repo_update None (id s) u w
  = (Ok (apply_update u s),
     after_calls [RepoUpdate None (id s) u]
       (set_committed (map_row (id s) (apply_update u) (committed (store w)))
          (store w)) w).
Proof.
  intros Hcalm Hfind. unfold repo_update, on_view.
  rewrite collaborator_ok by assumption. simpl. rewrite Hfind.
  reflexivity.
Qed.

Lemma getStrictlySingleActiveSegment_single w s :
  active_segments w = [s] -> getStrictlySingleActiveSegment w = (Ok s, w).
Proof. unfold getStrictlySingleActiveSegment. intros ->. reflexivity. Qed.

Lemma getActivityTypes_single w s :
  active_segments w = [s] ->
  getActivityTypes w = (Ok (activityTypes_of (options w) s), w).
Proof. unfold getActivityTypes. intros ->. reflexivity. Qed.


(* ================================================================== *)
(** ** Activity types: no-ops and removal *)

Lemma maps_key_truthy c k p : maps_key c k p = true -> platform_truthy c p = true.
Proof.
  unfold maps_key, obj_has, platform_types, platform_truthy.
  destruct (obj_get p c) as [[m|]|]; simpl; auto.
Qed.




(** C9: when the flattened view has [key], [destroyActivityType] deletes the
    entry [key] of the platform the view names, stores and returns the
    configuration so updated, and leaves every other (platform, type key)
    entry, and the platforms themselves, as they were. *)
Theorem destroyActivityType_removes_exactly key w s e :
  active_segments w = [s] ->
  calm 1 (faults w) = true ->
  obj_get key (unnestActivityTypes (activityTypes_of (options w) s)) = Some e ->
  let c := customActivityTypes s in
  let c' := nested_delete (platform e) key c in
  exists w',
    destroyActivityType key w
    = (Ok (mkActivityTypes (defaultActivityTypes (options w)) c'), w')
    /\ find_segment (id s) (committed (store w'))
       = Some (set_customActivityTypes c' s)
    /\ nested_get (platform e) key c = Some (settings e)
    /\ nested_get (platform e) key c' = None
    /\ (forall p k, p <> platform e \/ k <> key ->
                    nested_get p k c' = nested_get p k c)
    /\ obj_keys c' = obj_keys c.
Proof.
  intros Hs Hcalm He c c'.
  pose proof (active_single_find _ _ Hs) as Hfind.
  destruct (unnest_entry _ _ _ _ He) as [Hmaps Hget].
  eexists. split; [|split; [|split; [|split; [|split]]]].
  - unfold destroyActivityType, bind.
    rewrite (getActivityTypes_single _ _ Hs).
    rewrite (getStrictlySingleActiveSegment_single _ _ Hs).
    rewrite He.
    rewrite (repo_update_committed w s _ Hcalm Hfind). reflexivity.
  - simpl. rewrite find_segment_map_row by reflexivity.
    rewrite Hfind. simpl. rewrite Nat.eqb_refl. reflexivity.
  - exact Hget.
  - unfold c'. rewrite nested_get_delete, !String.eqb_refl. reflexivity.
  - intros p k Hpk. unfold c'. rewrite nested_get_delete.
    destruct (platform e =? p) eqn:Ep; auto.
    apply String.eqb_eq in Ep. subst p.
    destruct (key =? k) eqn:Ek; auto.
    apply String.eqb_eq in Ek. subst k. destruct Hpk; congruence.
  - unfold c', nested_delete. apply obj_keys_set_present.
    apply maps_key_truthy in Hmaps. unfold platform_truthy, obj_has in *.
    unfold c.
    destruct (obj_get (platform e) (customActivityTypes s));
      [reflexivity | discriminate].
Qed.

Lemma destroyActivityType_removes_exactly_witness :
  exists w',
    destroyActivityType "star" (one_segment github_then_slack obj_empty)
    = (Ok (mkActivityTypes obj_empty
             [("github", Some obj_empty); ("slack", Some obj_empty)]), w').
Proof.
  destruct (destroyActivityType_removes_exactly "star"
              (one_segment github_then_slack obj_empty)
              (mkSegment 1 PROJECT_GROUP
                 (mkSegmentData (Some "Acme") (Some "acme")
                    None None None None [])
                 github_then_slack obj_empty)
              (mkUnnested starred "slack")
              eq_refl eq_refl eq_refl) as (w' & H & _).
  exists w'. exact H.
Defined.



(* ================================================================== *)
(** ** Activity channels *)







(* ================================================================== *)
(** ** Type keys across platforms *)

Lemma maps_key_nested_get c k p :
  maps_key c k p = match nested_get p k c with Some _ => true | None => false end.
Proof. reflexivity. Qed.

Lemma maps_key_set p k s c k' q :
  maps_key (nested_set p k s c) k' q
  = if p =? q then (k =? k') || maps_key c k' p else maps_key c k' q.
Proof.
  rewrite !maps_key_nested_get, nested_get_set.
  destruct (p =? q); auto. destruct (k =? k'); auto.
Qed.















(* ================================================================== *)
(** ** Transactions, one call at a time *)

Lemma tx_lookup_last t op st :
  tx_lookup t op = None -> tx_lookup t (op ++ [(t, st)])%list = Some st.
Proof.
  induction op as [|[t' st'] op IH]; simpl.
  - rewrite Nat.eqb_refl. reflexivity.
  - destruct (t' =? t)%nat; [discriminate | exact IH].
Qed.

Lemma tx_store_last t op st st' :
  tx_lookup t op = None ->
  tx_store t st' (op ++ [(t, st)])%list = (op ++ [(t, st')])%list.
Proof.
  induction op as [|[t1 st1] op IH]; simpl.
  - rewrite Nat.eqb_refl. reflexivity.
  - destruct (t1 =? t)%nat; [discriminate|]. intros H. rewrite IH; auto.
Qed.

Lemma tx_remove_last t op st :
  tx_lookup t op = None -> tx_remove t (op ++ [(t, st)])%list = op.
Proof.
  unfold tx_remove. induction op as [|[t1 st1] op IH]; simpl.
  - rewrite Nat.eqb_refl. reflexivity.
  - destruct (t1 =? t)%nat; [discriminate|]. simpl. intros H.
    rewrite IH; auto.
Qed.

Lemma store_wf_fresh_tx s :
  store_wf s = true -> tx_lookup (next_tx s) (open s) = None.
Proof.
  unfold store_wf. intros H. apply andb_prop in H. destruct H as [H _].
  induction (open s) as [|[t st] op IH]; simpl in *; auto.
  apply andb_prop in H. destruct H as [Ht H].
  apply Nat.ltb_lt in Ht. destruct (Nat.eqb_spec t (next_tx s)); [lia | auto].
Qed.

Lemma store_wf_fresh_id s k :
  store_wf s = true -> find_segment (next_id s + k) (committed s) = None.
Proof.
  unfold store_wf, find_segment. intros H. apply andb_prop in H.
  destruct H as [_ H]. apply find_all_false. intros r Hr.
  rewrite forallb_forall in H. specialize (H r Hr).
  apply Nat.ltb_lt in H. apply Nat.eqb_neq. lia.
Qed.

Section InTransaction.
Variables (cm : list Segment) (op : list (TxId * TxState)) (t : TxId).
Variables (b wk : list Segment) (n : SegmentId) (nt : TxId) (o : Options).
Variables (fs : list (option Exn)) (cl : list Call).
Hypothesis fresh : tx_lookup t op = None.

Lemma view_tx :
  view (Some t) (mkStore cm (op ++ [(t, mkTxState b wk)])%list n nt) = Some wk.
Proof. simpl. rewrite tx_lookup_last by exact fresh. reflexivity. Qed.

Lemma write_tx rows :
  write (Some t) rows (mkStore cm (op ++ [(t, mkTxState b wk)])%list n nt)
  = mkStore cm (op ++ [(t, mkTxState b rows)])%list n nt.
Proof.
  unfold write. simpl. rewrite tx_lookup_last by exact fresh.
  rewrite tx_store_last by exact fresh. reflexivity.
Qed.

Ltac enter_call Hc :=
  rewrite collaborator_ok by exact Hc;
  unfold after_call, tx_world;
  cbn [store options faults calls];
  rewrite ?view_tx.

Lemma repo_create_tx d :
  calm 1 fs = true ->
  repo_create (Some t) d (tx_world cm op t b wk n nt o fs cl)
  = (Ok (new_segment n d),
     tx_world cm op t b (wk ++ [new_segment n d]) (S n) nt o (tl fs)
       (cl ++ [RepoCreate (Some t) d])).
Proof.
  intros Hc. unfold repo_create, on_view. enter_call Hc.
  unfold with_store. cbn [store options faults calls next_id].
  rewrite write_tx. reflexivity.
Qed.

Lemma repo_update_tx i u s :
  calm 1 fs = true ->
  find_segment i wk = Some s ->
  repo_update (Some t) i u (tx_world cm op t b wk n nt o fs cl)
  = (Ok (apply_update u s),
     tx_world cm op t b (map_row i (apply_update u) wk) n nt o (tl fs)
       (cl ++ [RepoUpdate (Some t) i u])).
Proof.
  intros Hc Hfind. unfold repo_update, on_view. enter_call Hc.
  rewrite Hfind. unfold bind, put_rows, ret, with_store.
  cbn [store options faults calls]. rewrite write_tx. reflexivity.
Qed.


Lemma repo_findBySlug_tx sl l :
  calm 1 fs = true ->
  repo_findBySlug (Some t) sl l (tx_world cm op t b wk n nt o fs cl)
  = (Ok (find_slug sl l wk),
     tx_world cm op t b wk n nt o (tl fs)
       (cl ++ [RepoFindBySlug (Some t) sl l])).
Proof.
  intros Hc. unfold repo_findBySlug, on_view. enter_call Hc. reflexivity.
Qed.

Lemma commitTransaction_tx :
  calm 1 fs = true ->
  commitTransaction (mkTransaction t) (tx_world cm op t b wk n nt o fs cl)
  = (Ok tt,
     mkWorld (mkStore wk op n nt) o (tl fs) (cl ++ [CommitTransaction t])).
Proof.
  intros Hc. unfold commitTransaction. enter_call Hc.
  cbn [transaction open]. rewrite tx_lookup_last by exact fresh.
  unfold with_store. cbn. rewrite tx_remove_last by exact fresh.
  reflexivity.
Qed.

Lemma rollbackTransaction_tx :
  calm 1 fs = true ->
  rollbackTransaction t (tx_world cm op t b wk n nt o fs cl)
  = (Ok tt,
     mkWorld (mkStore cm op n nt) o (tl fs) (cl ++ [RollbackTransaction t])).
Proof.
  intros Hc. unfold rollbackTransaction. enter_call Hc.
  cbn [open]. rewrite tx_lookup_last by exact fresh.
  unfold with_store. cbn. rewrite tx_remove_last by exact fresh.
  reflexivity.
Qed.

(** The handler of the three cascades: roll back, throw the same error. *)
Lemma rollback_and_rethrow_tx {A} e :
  calm 1 fs = true ->
  @rollback_and_rethrow A (mkTransaction t) e
    (tx_world cm op t b wk n nt o fs cl)
  = (Throw e,
     mkWorld (mkStore cm op n nt) o (tl fs) (cl ++ [RollbackTransaction t])).
Proof.
  intros Hc. unfold rollback_and_rethrow, bind. cbn [transaction].
  rewrite rollbackTransaction_tx by exact Hc. reflexivity.
Qed.
End InTransaction.

Lemma createTransaction_ok w :
  calm 1 (faults w) = true ->
  createTransaction w
  = (Ok (mkTransaction (next_tx (store w))),
     tx_world (committed (store w)) (open (store w)) (next_tx (store w))
       (committed (store w)) (committed (store w)) (next_id (store w))
       (S (next_tx (store w))) (options w) (tl (faults w))
       (calls w ++ [CreateTransaction])).
Proof.
  intros Hc. unfold createTransaction.
  rewrite collaborator_ok by exact Hc. reflexivity.
Qed.

Lemma findById_ok i w :
  calm 1 (faults w) = true ->
  findById i w
  = (Ok (find_segment i (committed (store w))),
     after_call (RepoFindById None i) w).
Proof.
  intros Hc. unfold findById, repo_findById, on_view.
  rewrite collaborator_ok by exact Hc. reflexivity.
Qed.

(* ================================================================== *)
(** ** The cascades *)

Lemma calm_S n fs :
  calm (S n) fs = true -> calm 1 fs = true /\ calm n (tl fs) = true.
Proof.
  destruct fs as [|[e|] fs]; simpl; intros H; try discriminate; auto.
  destruct n; auto.
Qed.

Ltac calm_next Hc H1 :=
  let H := fresh in
  pose proof (calm_S _ _ Hc) as H; clear Hc; destruct H as [H1 Hc].

Lemma find_segment_fresh_last s k rows :
  store_wf s = true ->
  find_segment (next_id s + k) (committed s ++ rows)%list
  = find_segment (next_id s + k) rows.
Proof.
  intros Hwf. unfold find_segment. rewrite find_app.
  fold (find_segment (next_id s + k) (committed s)).
  rewrite store_wf_fresh_id by exact Hwf. reflexivity.
Qed.

(** C1: for an input without parent and grandparent slug, when no
    collaborator fails, [createProjectGroup] adds exactly three rows: the
    group, a counterpart whose parent slug and name are the group's slug and
    name and whose other fields are the input's (a project), and a
    counterpart whose parent and grandparent slug and name are the group's
    (a subproject); it commits them and returns the group read back by its
    id. *)
Theorem createProjectGroup_cascade d w :
  truthy (parentSlug d) = false ->
  truthy (grandparentSlug d) = false ->
  store_wf (store w) = true ->
  calm 6 (faults w) = true ->
  let n := next_id (store w) in
  let t := next_tx (store w) in
  let group := new_segment n d in
  let project := new_segment (S n) (project_counterpart d) in
  let subproject := new_segment (S (S n)) (subproject_counterpart d) in
  exists w',
    createProjectGroup d w = (Ok (Some group), w')
    /\ committed (store w')
       = (committed (store w) ++ [group; project; subproject])%list
    /\ open (store w') = open (store w)
    /\ calls w'
       = (calls w ++ [CreateTransaction;
                      RepoCreate (Some t) d;
                      RepoCreate (Some t) (project_counterpart d);
                      RepoCreate (Some t) (subproject_counterpart d);
                      CommitTransaction t;
                      RepoFindById None n])%list
    /\ find_segment n (committed (store w')) = Some group
    /\ data group = d
    /\ data project
       = mkSegmentData (name d) (slug d) (slug d) (name d)
           (grandparentSlug d) (grandparentName d) (rest d)
    /\ data subproject
       = mkSegmentData (name d) (slug d) (slug d) (name d)
           (slug d) (name d) (rest d)
    /\ level group = PROJECT_GROUP
    /\ (truthy (slug d) = true ->
        level project = PROJECT /\ level subproject = SUBPROJECT).
Proof.
  intros Hp Hg Hwf Hc n t group project subproject.
  pose proof (store_wf_fresh_tx _ Hwf) as Hfresh. fold t in Hfresh.
  assert (Hfind : find_segment n
                    (committed (store w) ++ [group; project; subproject])%list
                  = Some group).
  { replace n with (next_id (store w) + 0)%nat at 1 by (unfold n; lia).
    rewrite find_segment_fresh_last by exact Hwf.
    replace (next_id (store w) + 0)%nat with n by (unfold n; lia).
    unfold find_segment. simpl. rewrite Nat.eqb_refl. reflexivity. }
  unfold createProjectGroup. rewrite Hp, Hg. cbn [orb].
  calm_next Hc H1. unfold bind at 1. rewrite createTransaction_ok by exact H1.
  fold n t. unfold try_catch. cbn [transaction].
  calm_next Hc H2. unfold bind at 1. rewrite repo_create_tx by assumption.
  calm_next Hc H3. unfold bind at 1. rewrite repo_create_tx by assumption.
  calm_next Hc H4. unfold bind at 1. rewrite repo_create_tx by assumption.
  calm_next Hc H5. unfold bind at 1. rewrite commitTransaction_tx by assumption.
  calm_next Hc H6. rewrite findById_ok by assumption.
  fold group project subproject.
  cbn [id new_segment store committed].
  rewrite <- !app_assoc. cbn [app].
  change (id group) with n. rewrite Hfind.
  eexists. split; [reflexivity|].
  cbn [store committed open calls after_call].
  rewrite <- !app_assoc. cbn [app].
  repeat split; auto.
  - unfold group, new_segment, level_of. cbn [level]. rewrite Hp. reflexivity.
  - unfold project, new_segment, level_of, project_counterpart.
    cbn [level parentSlug grandparentSlug]. rewrite H, Hg. reflexivity.
  - unfold subproject, new_segment, level_of, subproject_counterpart.
    cbn [level parentSlug grandparentSlug]. rewrite H. reflexivity.
Qed.

Lemma createProjectGroup_cascade_witness :
  exists w',
    createProjectGroup acme empty_world = (Ok (Some (new_segment 1 acme)), w')
    /\ committed (store w')
       = [new_segment 1 acme;
          new_segment 2 (project_counterpart acme);
          new_segment 3 (subproject_counterpart acme)].
Proof.
  destruct (createProjectGroup_cascade acme empty_world
              eq_refl eq_refl eq_refl eq_refl) as (w' & H & Hrows & _).
  exists w'. split; [exact H | exact Hrows].
Defined.

Lemma on_view_fault {A} c tx (k : list Segment -> M A) w e fs :
  faults w = Some e :: fs -> on_view c tx k w = (Throw e, after_call c w).
Proof. unfold on_view. apply collaborator_fault. Qed.

Lemma after_call_tx c cm op t b wk n nt o fs cl :
  after_call c (tx_world cm op t b wk n nt o fs cl)
  = tx_world cm op t b wk n nt o (tl fs) (cl ++ [c]).
Proof. reflexivity. Qed.

(** [createProject] up to the lookup of the parent group. *)
Lemma createProject_lookup d w :
  truthy (grandparentSlug d) = false ->
  truthy (parentSlug d) = true ->
  calm 1 (faults w) = true ->
  createProject d w
  = bind (repo_findBySlug (Some (next_tx (store w)))
            (template (parentSlug d)) PROJECT_GROUP)
      (fun parent =>
         match parent with
         | None =>
             throw (JsError ("Project group " ++ template (parentName d)
                               ++ " does not exist."))
         | Some _ =>
             try_catch
               (project <- repo_create (Some (next_tx (store w))) d ;;
                repo_create (Some (next_tx (store w)))
                  (project_subproject_counterpart d) ;;;
                commitTransaction (mkTransaction (next_tx (store w))) ;;;
                findById (id project))
               (rollback_and_rethrow (mkTransaction (next_tx (store w))))
         end)
      (tx_world (committed (store w)) (open (store w)) (next_tx (store w))
         (committed (store w)) (committed (store w)) (next_id (store w))
         (S (next_tx (store w))) (options w) (tl (faults w))
         (calls w ++ [CreateTransaction])).
Proof.
  intros Hg Hp Hc. unfold createProject. rewrite Hg, Hp. cbn [negb].
  unfold bind at 1. rewrite createTransaction_ok by exact Hc. reflexivity.
Qed.










(** A [create] of [createProjectGroup] that throws, after [k] of the three
    succeeded, is followed by the rollback: the error thrown is the same and
    no row is committed. *)
Lemma createProjectGroup_rolls_back d w k e fs :
  truthy (parentSlug d) = false ->
  truthy (grandparentSlug d) = false ->
  store_wf (store w) = true ->
  (k < 3)%nat ->
  faults w = (None :: repeat None k ++ Some e :: fs)%list ->
  calm 1 fs = true ->
  exists w',
    createProjectGroup d w = (Throw e, w')
    /\ committed (store w') = committed (store w)
    /\ open (store w') = open (store w)
    /\ last (calls w') CreateTransaction
       = RollbackTransaction (next_tx (store w)).
Proof.
  intros Hp Hg Hwf Hk Hf Hc.
  pose proof (store_wf_fresh_tx _ Hwf) as Hfresh.
  unfold createProjectGroup. rewrite Hp, Hg. cbn [orb].
  unfold bind at 1.
  rewrite createTransaction_ok by (rewrite Hf; reflexivity).
  unfold try_catch. cbn [transaction]. rewrite Hf. cbn [tl].
  destruct k as [|[|[|k]]]; [| | |lia]; cbn [repeat app].
  - unfold bind at 1, repo_create.
    rewrite (on_view_fault _ _ _ _ e fs) by reflexivity.
    rewrite after_call_tx, rollback_and_rethrow_tx by assumption.
    eexists. split; [reflexivity|]. cbn. rewrite !last_last. auto.
  - unfold bind at 1. rewrite repo_create_tx by auto.
    unfold bind at 1, repo_create.
    rewrite (on_view_fault _ _ _ _ e fs) by reflexivity.
    rewrite after_call_tx, rollback_and_rethrow_tx by assumption.
    eexists. split; [reflexivity|]. cbn. rewrite !last_last. auto.
  - unfold bind at 1. rewrite repo_create_tx by auto.
    unfold bind at 1. rewrite repo_create_tx by auto.
    unfold bind at 1, repo_create.
    rewrite (on_view_fault _ _ _ _ e fs) by reflexivity.
    rewrite after_call_tx, rollback_and_rethrow_tx by assumption.
    eexists. split; [reflexivity|]. cbn. rewrite !last_last. auto.
Qed.

(** An [update] whose repository update, or whose bulk update of the
    children, throws is rolled back in the same way. *)
Lemma update_rolls_back i u w seg e fs :
  find_segment i (committed (store w)) = Some seg ->
  store_wf (store w) = true ->
  calm 1 fs = true ->
  (faults w = None :: None :: Some e :: fs
   \/ (faults w = None :: None :: None :: Some e :: fs
       /\ negb (isSubproject seg) && (truthy (u_name u) || truthy (u_slug u))
          = true)) ->
  exists w',
    update i u w = (Throw e, w')
    /\ committed (store w') = committed (store w)
    /\ open (store w') = open (store w)
    /\ last (calls w') CreateTransaction
       = RollbackTransaction (next_tx (store w)).
Proof.
  intros Hfind Hwf Hc Hf.
  pose proof (store_wf_fresh_tx _ Hwf) as Hfresh.
  assert (H1 : calm 1 (faults w) = true)
    by (destruct Hf as [Hf|[Hf _]]; rewrite Hf; reflexivity).
  assert (H2 : calm 1 (tl (faults w)) = true)
    by (destruct Hf as [Hf|[Hf _]]; rewrite Hf; reflexivity).
  unfold update. unfold bind at 1. rewrite findById_ok by assumption.
  rewrite Hfind. unfold bind at 1.
  rewrite createTransaction_ok by assumption.
  cbn [after_call store options faults calls transaction].
  unfold try_catch. unfold bind at 1.
  destruct Hf as [Hf|[Hf Hcond]]; rewrite Hf; cbn [tl].
  - unfold repo_update.
    rewrite (on_view_fault _ _ _ _ e fs) by reflexivity.
    rewrite after_call_tx, rollback_and_rethrow_tx by assumption.
    eexists. split; [reflexivity|]. cbn. rewrite !last_last. auto.
  - rewrite (repo_update_tx _ _ _ _ _ _ _ _ _ _ Hfresh i u seg) by auto.
    unfold bind at 1, update_children. rewrite Hcond.
    unfold repo_updateChildrenBulk.
    rewrite (on_view_fault _ _ _ _ e fs) by reflexivity.
    rewrite after_call_tx, rollback_and_rethrow_tx by assumption.
    eexists. split; [reflexivity|]. cbn. rewrite !last_last. auto.
Qed.

(** C2 does not hold of [createProject]: the lookup of the parent group is a
    repository call made through the open transaction, but outside the
    [try] block. When it throws, the error leaves the method unchanged and
    nothing is committed, yet the transaction is not rolled back: it stays
    open and [rollbackTransaction] is never called. *)
Theorem createProject_lookup_failure_leaves_transaction_open :
  exists w',
    createProject web (acme_world [None; Some (Failure "connection lost")])
    = (Throw (Failure "connection lost"), w')
    /\ calls w'
       = [CreateTransaction; RepoFindBySlug (Some 1) "acme" PROJECT_GROUP]
    /\ open (store w')
       = [(1, mkTxState [new_segment 1 acme] [new_segment 1 acme])]
    /\ committed (store w') = [new_segment 1 acme].
Proof.
  exists (snd (createProject web
                 (acme_world [None; Some (Failure "connection lost")]))).
  vm_compute. repeat split.
Qed.

(* ================================================================== *)
(** ** Further properties of the flattened view *)

Lemma find_ext {A} (f g : A -> bool) (l : list A) :
  (forall x, f x = g x) -> find f l = find g l.
Proof.
  intros H. induction l as [|x l IH]; simpl; auto.
  rewrite H, IH. reflexivity.
Qed.


(** Configurations with the same platforms, in the same order, mapping the
    same keys have the same owners. *)
Lemma owner_same_pairs c c' k :
  obj_keys c' = obj_keys c ->
  (forall q, platform_truthy c' q = platform_truthy c q) ->
  (forall q, maps_key c' k q = maps_key c k q) ->
  owner c' k = owner c k.
Proof.
  intros Hkeys Htruthy Hmaps. unfold owner. rewrite Hkeys.
  rewrite (filter_ext _ _ Htruthy). apply find_ext. exact Hmaps.
Qed.

(** X1: [unnestActivityTypes] has an entry for a key exactly when some platform
    maps the key. *)
Theorem unnest_has_key_iff d c k :
  obj_get k (unnestActivityTypes (mkActivityTypes d c)) <> None
  <-> exists p, maps_key c k p = true.
Proof.
  rewrite unnest_get. split.
  - destruct (owner c k) as [p|] eqn:O; [|congruence].
    intros _. exists p. apply (owner_maps _ _ _ O).
  - intros (p & Hp). destruct (owner c k) as [q|] eqn:O.
    + apply owner_maps in O. apply maps_key_get in O.
      destruct (nested_get q k c); simpl; congruence.
    + apply (owner_none c k p) in O. congruence.
Qed.

(** X2: When no type key is mapped by two platforms, [unnestActivityTypes]
    loses nothing: every nested entry [custom[p][k] = s] shows in the
    flattened view as [k -> {...s, platform: p}]. *)
Theorem unnest_lossless_when_unique d c p k s :
  unique_type_keys c ->
  nested_get p k c = Some s ->
  obj_get k (unnestActivityTypes (mkActivityTypes d c)) = Some (mkUnnested s p).
Proof.
  intros Hu Hget.
  assert (Hp : maps_key c k p = true) by (apply maps_key_get; congruence).
  rewrite unnest_get. destruct (owner c k) as [q|] eqn:O.
  - apply owner_maps in O. rewrite (Hu q p k O Hp), Hget. reflexivity.
  - apply (owner_none c k p) in O. congruence.
Qed.

Lemma unnest_lossless_when_unique_witness :
  obj_get "star"
    (unnestActivityTypes
       (mkActivityTypes obj_empty [("github", Some [("star", star)])]))
  = Some (mkUnnested star "github").
Proof.
  apply unnest_lossless_when_unique; [|reflexivity].
  intros p q k Hp Hq.
  unfold maps_key, obj_has, platform_types, obj_get in Hp, Hq.
  destruct (String.eqb_spec "github" p); [|discriminate Hp].
  destruct (String.eqb_spec "github" q); [|discriminate Hq].
  congruence.
Defined.

(* ================================================================== *)
(** ** Further properties of the activity type operations *)


Lemma updateActivityType_run key type w s e :
  active_segments w = [s] ->
  truthy type = true ->
  calm 1 (faults w) = true ->
  obj_get key (unnestActivityTypes (activityTypes_of (options w) s)) = Some e ->
  let c' := nested_set (platform e) key (fresh_settings (template type))
              (customActivityTypes s) in
  updateActivityType key type w
  = (Ok (mkActivityTypes (defaultActivityTypes (options w)) c'),
     after_calls [RepoUpdate None (id s) (only_customActivityTypes c')]
       (set_committed
          (map_row (id s) (set_customActivityTypes c') (committed (store w)))
          (store w)) w).
Proof.
  intros Hs Htype Hcalm He c'. unfold updateActivityType.
  rewrite Htype. cbn [negb]. unfold bind.
  rewrite (getStrictlySingleActiveSegment_single _ _ Hs).
  rewrite (getActivityTypes_single _ _ Hs). rewrite He.
  rewrite (repo_update_committed w s _ Hcalm (active_single_find _ _ Hs)).
  reflexivity.
Qed.



(** X3: A missing [data.type] or [data.channel] is rejected with the
    [Error400] of the operation, carrying the language of the options,
    before the context is resolved: whatever segments the context addresses,
    no call is made and the world stays as it is. *)
Theorem activity_validation_errors w type channel :
  (truthy type = false ->
   forall platform_arg key,
     createActivityType type platform_arg w
     = (Throw (Error400 (language (options w))
                 "settings.activityTypes.errors.typeRequiredWhenCreating" []),
        w)
     /\ updateActivityType key type w
        = (Throw (Error400 (language (options w))
                    "settings.activityTypes.errors.typeRequiredWhenUpdating" []),
           w))
  /\ (truthy channel = false ->
      forall platform_arg,
        updateActivityChannels channel platform_arg w
        = (Throw (Error400 (language (options w))
                    "settings.activityChannels.errors.typeRequiredWhenCreating"
                    []),
           w)).
Proof.
  split.
  - intros H platform_arg key.
    unfold createActivityType, updateActivityType. rewrite H. auto.
  - intros H platform_arg. unfold updateActivityChannels. rewrite H. auto.
Qed.

Lemma activity_validation_errors_witness :
  createActivityType (Some "") (Some "github") empty_world
  = (Throw (Error400 "en"
              "settings.activityTypes.errors.typeRequiredWhenCreating" []),
     empty_world).
Proof.
  destruct (activity_validation_errors empty_world (Some "") None) as (H & _).
  exact (proj1 (H eq_refl (Some "github") "star")).
Defined.

(** X4: When the context does not address exactly one segment, the four
    operations on the activity configuration throw what the context resolver
    throws; none of them calls the repository or changes the world. *)
Theorem activity_needs_single_segment w :
  List.length (active_segments w) <> 1%nat ->
  (forall type platform_arg,
      truthy type = true ->
      createActivityType type platform_arg w = (Throw not_single_segment, w))
  /\ (forall key type,
         truthy type = true ->
         updateActivityType key type w = (Throw not_single_segment, w))
  /\ (forall key, destroyActivityType key w = (Throw not_single_segment, w))
  /\ (forall channel platform_arg,
         truthy channel = true ->
         updateActivityChannels channel platform_arg w
         = (Throw not_single_segment, w)).
Proof.
  intros Hlen.
  assert (Hstrict : getStrictlySingleActiveSegment w
                    = (Throw not_single_segment, w)).
  { unfold getStrictlySingleActiveSegment.
    destruct (active_segments w) as [|s [|s' l]]; simpl in Hlen;
      [reflexivity | congruence | reflexivity]. }
  split; [|split; [|split]].
  - intros type platform_arg Ht. unfold createActivityType.
    rewrite Ht. cbn [negb]. unfold bind. rewrite Hstrict. reflexivity.
  - intros key type Ht. unfold updateActivityType.
    rewrite Ht. cbn [negb]. unfold bind. rewrite Hstrict. reflexivity.
  - intros key. unfold destroyActivityType, bind, getActivityTypes.
    destruct (active_segments w) as [|s [|s' l]] eqn:Hs; simpl in Hlen;
      try congruence; rewrite Hstrict; reflexivity.
  - intros channel platform_arg Hc. unfold updateActivityChannels.
    rewrite Hc. cbn [negb]. unfold bind. rewrite Hstrict. reflexivity.
Qed.

Lemma activity_needs_single_segment_witness :
  destroyActivityType "star" empty_world = (Throw not_single_segment, empty_world).
Proof.
  destruct (activity_needs_single_segment empty_world) as (_ & _ & H & _).
  - discriminate.
  - exact (H "star").
Defined.



(** X6: [updateActivityType] with a key the flattened view has rewrites the
    settings of that key under the platform the view names, from
    [data.type]; it stores and returns the result. Every other
    (platform, type key) entry and the order of the platforms stay, and the
    flattened view afterwards shows the key under the same platform with the
    new settings, and every other key as before. *)
Theorem updateActivityType_in_place key type w s e :
  active_segments w = [s] ->
  truthy type = true ->
  calm 1 (faults w) = true ->
  obj_get key (unnestActivityTypes (activityTypes_of (options w) s)) = Some e ->
  let c := customActivityTypes s in
  let fresh := fresh_settings (template type) in
  let c' := nested_set (platform e) key fresh c in
  exists w',
    updateActivityType key type w
    = (Ok (mkActivityTypes (defaultActivityTypes (options w)) c'), w')
    /\ find_segment (id s) (committed (store w'))
       = Some (set_customActivityTypes c' s)
    /\ nested_get (platform e) key c' = Some fresh
    /\ (forall p k, p <> platform e \/ k <> key ->
                    nested_get p k c' = nested_get p k c)
    /\ obj_keys c' = obj_keys c
    /\ (forall d k,
          obj_get k (unnestActivityTypes (mkActivityTypes d c'))
          = if key =? k then Some (mkUnnested fresh (platform e))
            else obj_get k (unnestActivityTypes (mkActivityTypes d c))).
Proof.
  intros Hs Htype Hcalm He c fresh c'.
  pose proof (active_single_find _ _ Hs) as Hfind.
  destruct (unnest_entry _ _ _ _ He) as [Hmaps Hget]. fold c in Hmaps, Hget.
  assert (Hkeys : obj_keys c' = obj_keys c).
  { unfold c', nested_set. apply obj_keys_set_present.
    apply maps_key_truthy in Hmaps. unfold platform_truthy, obj_has in *.
    destruct (obj_get (platform e) c); [reflexivity | discriminate]. }
  assert (Htruthy : forall q, platform_truthy c' q = platform_truthy c q).
  { intros q. unfold c', nested_set, platform_truthy. rewrite obj_get_set.
    destruct (String.eqb_spec (platform e) q) as [<-|]; auto.
    apply maps_key_truthy in Hmaps. unfold platform_truthy in Hmaps.
    destruct (obj_get (platform e) c) as [[m|]|]; congruence. }
  assert (Hsame : forall k q, maps_key c' k q = maps_key c k q).
  { intros k q. unfold c'. rewrite maps_key_set.
    destruct (String.eqb_spec (platform e) q) as [<-|]; auto.
    destruct (String.eqb_spec key k) as [<-|]; auto. }
  assert (Hown : forall k, owner c' k = owner c k).
  { intros k. apply owner_same_pairs; auto. }
  eexists. split; [|split; [|split; [|split; [|split]]]].
  - apply (updateActivityType_run key type w s e); assumption.
  - simpl. rewrite find_segment_map_row by reflexivity.
    rewrite Hfind. simpl. rewrite Nat.eqb_refl. reflexivity.
  - unfold c'. rewrite nested_get_set, !String.eqb_refl. reflexivity.
  - intros p k Hpk. unfold c'. rewrite nested_get_set.
    destruct (String.eqb_spec (platform e) p) as [<-|]; auto.
    destruct (String.eqb_spec key k) as [<-|]; auto.
    destruct Hpk; congruence.
  - exact Hkeys.
  - intros d k. rewrite !unnest_get, Hown.
    rewrite (unnest_get c (defaultActivityTypes (options w))) in He.
    destruct (String.eqb_spec key k) as [<-|Hk].
    + destruct (owner c key) as [q|]; [|discriminate He].
      destruct (nested_get q key c) as [s0|]; simpl in He; [|discriminate He].
      inversion He. subst e. simpl in *.
      unfold c'. rewrite nested_get_set, !String.eqb_refl. reflexivity.
    + destruct (owner c k) as [q|]; auto.
      unfold c'. rewrite nested_get_set.
      destruct (String.eqb_spec (platform e) q) as [<-|]; auto.
      apply String.eqb_neq in Hk. rewrite Hk. reflexivity.
Qed.

Lemma updateActivityType_in_place_witness :
  exists w',
    updateActivityType "star" (Some "Starred")
      (one_segment [("github", Some [("star", star)])] obj_empty)
    = (Ok (mkActivityTypes obj_empty [("github", Some [("star", starred)])]),
       w').
Proof.
  destruct (updateActivityType_in_place "star" (Some "Starred")
              (one_segment [("github", Some [("star", star)])] obj_empty)
              (mkSegment 1 PROJECT_GROUP
                 (mkSegmentData (Some "Acme") (Some "acme")
                    None None None None [])
                 [("github", Some [("star", star)])] obj_empty)
              (mkUnnested star "github")
              eq_refl eq_refl eq_refl eq_refl) as (w' & H & _).
  exists w'. exact H.
Defined.









(* ================================================================== *)
(** ** Further properties of the activity channels *)





(* ================================================================== *)
(** ** Further properties of the hierarchy operations *)

(** X12: A validation failure of the three creation methods is thrown before any
    collaborator is called: no transaction is opened, nothing is written and
    the world stays as it is. [createProject] checks the grandparent before
    the parent, [createSubproject] the parent before the grandparent. *)
Theorem create_validation_errors d w :
  (truthy (parentSlug d) || truthy (grandparentSlug d) = true ->
   createProjectGroup d w
   = (Throw (JsError
               "Project groups can't have parent or grandparent segments."),
      w))
  /\ (truthy (grandparentSlug d) = true ->
      createProject d w
      = (Throw (JsError "Projects can't have grandparent segments."), w))
  /\ (truthy (grandparentSlug d) = false ->
      truthy (parentSlug d) = false ->
      createProject d w
      = (Throw (JsError
                  "Missing parentSlug. Projects must belong to a project group."),
         w))
  /\ (truthy (parentSlug d) = false ->
      createSubproject d w
      = (Throw (JsError
                  "Missing parentSlug. Subprojects must belong to a project."),
         w))
  /\ (truthy (parentSlug d) = true ->
      truthy (grandparentSlug d) = false ->
      createSubproject d w
      = (Throw (JsError
           "Missing grandparentSlug. Subprojects must belong to a project group."),
         w)).
Proof.
  unfold createProjectGroup, createProject, createSubproject.
  repeat split; intros; repeat match goal with
                               | H : _ = _ |- _ => rewrite H; clear H
                               end; reflexivity.
Qed.

Lemma create_validation_errors_witness :
  createSubproject web empty_world
  = (Throw (JsError
       "Missing grandparentSlug. Subprojects must belong to a project group."),
     empty_world).
Proof.
  destruct (create_validation_errors web empty_world) as (_ & _ & _ & _ & H).
  exact (H eq_refl eq_refl).
Defined.

Lemma repo_create_committed d w :
  calm 1 (faults w) = true ->
  repo_create None d w
  = (Ok (new_segment (next_id (store w)) d),
     mkWorld
       (mkStore (committed (store w) ++ [new_segment (next_id (store w)) d])
          (open (store w)) (S (next_id (store w))) (next_tx (store w)))
       (options w) (tl (faults w)) (calls w ++ [RepoCreate None d])).
Proof.
  intros Hc. unfold repo_create, on_view.
  rewrite collaborator_ok by exact Hc. reflexivity.
Qed.

(** X13: [createSubproject] with a parent and a grandparent slug makes one
    [create] outside any transaction and reads the row back: one row is
    added, the open transactions are left alone, and the row is returned.
    When the [create] throws, the error is thrown on and no row is added. *)
Theorem createSubproject_single_row d w :
  truthy (parentSlug d) = true ->
  truthy (grandparentSlug d) = true ->
  store_wf (store w) = true ->
  let n := next_id (store w) in
  (calm 2 (faults w) = true ->
   exists w',
     createSubproject d w = (Ok (Some (new_segment n d)), w')
     /\ committed (store w') = (committed (store w) ++ [new_segment n d])%list
     /\ open (store w') = open (store w)
     /\ calls w' = (calls w ++ [RepoCreate None d; RepoFindById None n])%list
     /\ level (new_segment n d) = SUBPROJECT)
  /\ (forall e fs,
         faults w = Some e :: fs ->
         exists w',
           createSubproject d w = (Throw e, w')
           /\ committed (store w') = committed (store w)
           /\ open (store w') = open (store w)
           /\ calls w' = (calls w ++ [RepoCreate None d])%list).
Proof.
  intros Hp Hg Hwf n. split.
  - intros Hc. calm_next Hc H1. calm_next Hc H2.
    unfold createSubproject. rewrite Hp, Hg. cbn [negb].
    unfold bind. rewrite repo_create_committed by assumption.
    rewrite findById_ok by assumption. fold n.
    change (id (new_segment n d)) with n. cbn [store committed].
    assert (Hfind : find_segment n (committed (store w) ++ [new_segment n d])%list
                    = Some (new_segment n d)).
    { replace n with (next_id (store w) + 0)%nat at 1 by (unfold n; lia).
      rewrite find_segment_fresh_last by exact Hwf.
      replace (next_id (store w) + 0)%nat with n by (unfold n; lia).
      unfold find_segment. simpl. rewrite Nat.eqb_refl. reflexivity. }
    rewrite Hfind.
    eexists. split; [reflexivity|].
    cbn. rewrite <- app_assoc. repeat split.
    unfold level_of. rewrite Hp, Hg. reflexivity.
  - intros e fs Hf. unfold createSubproject. rewrite Hp, Hg. cbn [negb].
    unfold bind, repo_create.
    rewrite (on_view_fault _ _ _ _ e fs) by exact Hf.
    eexists. split; [reflexivity|]. cbn. auto.
Qed.

Lemma createSubproject_single_row_witness :
  exists w',
    createSubproject
      (mkSegmentData (Some "Api") (Some "api") (Some "web") (Some "Web")
         (Some "acme") (Some "Acme") [])
      empty_world
    = (Ok (Some (new_segment 1
                   (mkSegmentData (Some "Api") (Some "api") (Some "web")
                      (Some "Web") (Some "acme") (Some "Acme") []))), w')
    /\ calls w'
       = [RepoCreate None
            (mkSegmentData (Some "Api") (Some "api") (Some "web")
               (Some "Web") (Some "acme") (Some "Acme") []);
          RepoFindById None 1].
Proof.
  destruct (createSubproject_single_row
              (mkSegmentData (Some "Api") (Some "api") (Some "web")
                 (Some "Web") (Some "acme") (Some "Acme") [])
              empty_world eq_refl eq_refl eq_refl) as (H & _).
  destruct (H eq_refl) as (w' & Hrun & _ & _ & Hcalls & _).
  exists w'. split; [exact Hrun | exact Hcalls].
Defined.

Lemma calm_iter a b fs :
  calm (a + b) fs = true -> calm b (Nat.iter a (@tl _) fs) = true.
Proof.
  revert b. induction a as [|a IH]; intros b H; simpl; auto.
  replace (S a + b)%nat with (a + S b)%nat in H by lia.
  apply IH in H. apply calm_S in H. tauto.
Qed.

Lemma store_wf_extend cm op n nt new n' nt' :
  store_wf (mkStore cm op n nt) = true ->
  forallb (fun r => id r <? n')%nat new = true ->
  (n <= n')%nat -> (nt <= nt')%nat ->
  store_wf (mkStore (cm ++ new) op n' nt') = true.
Proof.
  unfold store_wf. cbn [open committed next_id next_tx].
  intros H Hnew Hn Hnt. apply andb_prop in H. destruct H as [Hop Hcm].
  apply andb_true_intro. split.
  - rewrite forallb_forall in *. intros e He. specialize (Hop e He).
    apply Nat.ltb_lt in Hop. apply Nat.ltb_lt. lia.
  - rewrite forallb_app, Hnew, andb_true_r.
    rewrite forallb_forall in *. intros r Hr. specialize (Hcm r Hr).
    apply Nat.ltb_lt in Hcm. apply Nat.ltb_lt. lia.
Qed.

(** A successful [createProjectGroup], with the world it leaves. *)
Lemma createProjectGroup_run d w :
  truthy (parentSlug d) = false ->
  truthy (grandparentSlug d) = false ->
  store_wf (store w) = true ->
  calm 6 (faults w) = true ->
  let n := next_id (store w) in
  let t := next_tx (store w) in
  createProjectGroup d w
  = (Ok (Some (new_segment n d)),
     mkWorld
       (mkStore
          (committed (store w)
             ++ [new_segment n d;
                 new_segment (S n) (project_counterpart d);
                 new_segment (S (S n)) (subproject_counterpart d)])
          (open (store w)) (S (S (S n))) (S t))
       (options w) (Nat.iter 6 (@tl _) (faults w))
       (calls w ++ [CreateTransaction;
                    RepoCreate (Some t) d;
                    RepoCreate (Some t) (project_counterpart d);
                    RepoCreate (Some t) (subproject_counterpart d);
                    CommitTransaction t;
                    RepoFindById None n])).
Proof.
  intros Hp Hg Hwf Hc n t.
  pose proof (store_wf_fresh_tx _ Hwf) as Hfresh. fold t in Hfresh.
  assert (Hfind : find_segment n
                    (committed (store w)
                       ++ [new_segment n d;
                           new_segment (S n) (project_counterpart d);
                           new_segment (S (S n)) (subproject_counterpart d)])%list
                  = Some (new_segment n d)).
  { replace n with (next_id (store w) + 0)%nat at 1 by (unfold n; lia).
    rewrite find_segment_fresh_last by exact Hwf.
    replace (next_id (store w) + 0)%nat with n by (unfold n; lia).
    unfold find_segment. simpl. rewrite Nat.eqb_refl. reflexivity. }
  unfold createProjectGroup. rewrite Hp, Hg. cbn [orb].
  calm_next Hc H1. unfold bind at 1. rewrite createTransaction_ok by exact H1.
  fold n t. unfold try_catch. cbn [transaction].
  calm_next Hc H2. unfold bind at 1. rewrite repo_create_tx by assumption.
  calm_next Hc H3. unfold bind at 1. rewrite repo_create_tx by assumption.
  calm_next Hc H4. unfold bind at 1. rewrite repo_create_tx by assumption.
  calm_next Hc H5. unfold bind at 1. rewrite commitTransaction_tx by assumption.
  calm_next Hc H6. rewrite findById_ok by assumption.
  change (id (new_segment n d)) with n. cbn [store committed].
  rewrite <- !app_assoc. cbn [app]. rewrite Hfind.
  unfold after_call. cbn [store options faults calls].
  rewrite <- !app_assoc. reflexivity.
Qed.

(** A successful [createProject], with the world it leaves. *)
Lemma createProject_run d w parent :
  truthy (grandparentSlug d) = false ->
  truthy (parentSlug d) = true ->
  store_wf (store w) = true ->
  calm 6 (faults w) = true ->
  find_slug (template (parentSlug d)) PROJECT_GROUP (committed (store w))
  = Some parent ->
  let n := next_id (store w) in
  let t := next_tx (store w) in
  createProject d w
  = (Ok (Some (new_segment n d)),
     mkWorld
       (mkStore
          (committed (store w)
             ++ [new_segment n d;
                 new_segment (S n) (project_subproject_counterpart d)])
          (open (store w)) (S (S n)) (S t))
       (options w) (Nat.iter 6 (@tl _) (faults w))
       (calls w ++ [CreateTransaction;
                    RepoFindBySlug (Some t) (template (parentSlug d))
                      PROJECT_GROUP;
                    RepoCreate (Some t) d;
                    RepoCreate (Some t) (project_subproject_counterpart d);
                    CommitTransaction t;
                    RepoFindById None n])).
Proof.
  intros Hg Hp Hwf Hc Hparent n t.
  pose proof (store_wf_fresh_tx _ Hwf) as Hfresh. fold t in Hfresh.
  assert (Hfind : find_segment n
                    (committed (store w)
                       ++ [new_segment n d;
                           new_segment (S n)
                             (project_subproject_counterpart d)])%list
                  = Some (new_segment n d)).
  { replace n with (next_id (store w) + 0)%nat at 1 by (unfold n; lia).
    rewrite find_segment_fresh_last by exact Hwf.
    replace (next_id (store w) + 0)%nat with n by (unfold n; lia).
    unfold find_segment. simpl. rewrite Nat.eqb_refl. reflexivity. }
  calm_next Hc H1. rewrite createProject_lookup by assumption. fold n t.
  calm_next Hc H2. unfold bind at 1.
  rewrite repo_findBySlug_tx by assumption. rewrite Hparent.
  unfold try_catch.
  calm_next Hc H3. unfold bind at 1. rewrite repo_create_tx by assumption.
  calm_next Hc H4. unfold bind at 1. rewrite repo_create_tx by assumption.
  calm_next Hc H5. unfold bind at 1. rewrite commitTransaction_tx by assumption.
  calm_next Hc H6. rewrite findById_ok by assumption.
  change (id (new_segment n d)) with n. cbn [store committed].
  rewrite <- !app_assoc. cbn [app]. rewrite Hfind.
  unfold after_call. cbn [store options faults calls].
  rewrite <- !app_assoc. reflexivity.
Qed.

(** X14: [createProject] under an existing project group, when no collaborator
    fails, adds exactly two rows inside one transaction: the project, and a
    subproject counterpart whose parent slug and name are the project's own
    slug and name and whose grandparent slug is the project's parent slug;
    it commits them and returns the project read back by its id. *)
Theorem createProject_cascade d w parent :
  truthy (grandparentSlug d) = false ->
  truthy (parentSlug d) = true ->
  store_wf (store w) = true ->
  calm 6 (faults w) = true ->
  find_slug (template (parentSlug d)) PROJECT_GROUP (committed (store w))
  = Some parent ->
  let n := next_id (store w) in
  let t := next_tx (store w) in
  let project := new_segment n d in
  let subproject := new_segment (S n) (project_subproject_counterpart d) in
  exists w',
    createProject d w = (Ok (Some project), w')
    /\ committed (store w') = (committed (store w) ++ [project; subproject])%list
    /\ open (store w') = open (store w)
    /\ calls w'
       = (calls w ++ [CreateTransaction;
                      RepoFindBySlug (Some t) (template (parentSlug d))
                        PROJECT_GROUP;
                      RepoCreate (Some t) d;
                      RepoCreate (Some t) (project_subproject_counterpart d);
                      CommitTransaction t;
                      RepoFindById None n])%list
    /\ data project = d
    /\ data subproject
       = mkSegmentData (name d) (slug d) (slug d) (name d)
           (parentSlug d) (grandparentName d) (rest d)
    /\ level project = PROJECT
    /\ (truthy (slug d) = true -> level subproject = SUBPROJECT).
Proof.
  intros Hg Hp Hwf Hc Hparent n t project subproject.
  eexists. split.
  - apply (createProject_run d w parent); assumption.
  - cbn [store committed open calls]. repeat split; auto.
    + unfold project, new_segment, level_of. cbn [level]. rewrite Hp, Hg.
      reflexivity.
    + intros Hslug. unfold subproject, new_segment, level_of,
        project_subproject_counterpart.
      cbn [level parentSlug grandparentSlug]. rewrite Hslug, Hp. reflexivity.
Qed.

Lemma createProject_cascade_witness :
  exists w',
    createProject web (acme_world []) = (Ok (Some (new_segment 2 web)), w')
    /\ committed (store w')
       = [new_segment 1 acme; new_segment 2 web;
          new_segment 3 (project_subproject_counterpart web)].
Proof.
  destruct (createProject_cascade web (acme_world []) (new_segment 1 acme)
              eq_refl eq_refl eq_refl eq_refl eq_refl)
    as (w' & H & Hrows & _).
  exists w'. split; [exact H | exact Hrows].
Defined.

Lemma find_slug_new_group sl g n cm rest_rows :
  slug g = Some sl ->
  truthy (parentSlug g) = false ->
  exists parent,
    find_slug sl PROJECT_GROUP (cm ++ new_segment n g :: rest_rows)%list
    = Some parent.
Proof.
  intros Hslug Hp. unfold find_slug. rewrite find_app.
  match goal with |- context [find ?f cm] => destruct (find f cm) end.
  - eexists. reflexivity.
  - eexists. simpl. rewrite Hslug. simpl. rewrite String.eqb_refl.
    unfold level_of. rewrite Hp. reflexivity.
Qed.

(** X15: The two cascades compose: right after [createProjectGroup] for a group
    with slug [sl], a [createProject] whose parent slug is [sl] finds its
    parent and succeeds, and the two calls together add five rows. *)
Theorem createProject_under_new_group g p sl w :
  truthy (parentSlug g) = false ->
  truthy (grandparentSlug g) = false ->
  slug g = Some sl ->
  parentSlug p = Some sl ->
  sl <> "" ->
  truthy (grandparentSlug p) = false ->
  store_wf (store w) = true ->
  calm 12 (faults w) = true ->
  let n := next_id (store w) in
  exists w1 w2,
    createProjectGroup g w = (Ok (Some (new_segment n g)), w1)
    /\ createProject p w1 = (Ok (Some (new_segment (3 + n) p)), w2)
    /\ committed (store w2)
       = (committed (store w)
            ++ [new_segment n g;
                new_segment (1 + n) (project_counterpart g);
                new_segment (2 + n) (subproject_counterpart g);
                new_segment (3 + n) p;
                new_segment (4 + n) (project_subproject_counterpart p)])%list
    /\ open (store w2) = open (store w).
Proof.
  intros Hgp Hgg Hslug Hparent Hsl Hpg Hwf Hc n.
  assert (Hpp : truthy (parentSlug p) = true).
  { rewrite Hparent. simpl. apply String.eqb_neq in Hsl. rewrite Hsl.
    reflexivity. }
  pose proof (createProjectGroup_run g w Hgp Hgg Hwf
                (calm_le 12 6 _ ltac:(lia) Hc)) as Hrun1.
  cbv zeta in Hrun1. fold n in Hrun1.
  set (w1 := mkWorld _ _ _ _) in Hrun1.
  assert (Hwf1 : store_wf (store w1) = true).
  { unfold w1. cbn [store].
    apply (store_wf_extend (committed (store w)) (open (store w))
             (next_id (store w)) (next_tx (store w))); try (unfold n; lia).
    - exact Hwf.
    - cbn [forallb id new_segment].
      rewrite !(proj2 (Nat.ltb_lt _ _)) by lia. reflexivity. }
  destruct (find_slug_new_group sl g n (committed (store w))
              [new_segment (S n) (project_counterpart g);
               new_segment (S (S n)) (subproject_counterpart g)]
              Hslug Hgp) as (parent & Hfound).
  assert (Hc1 : calm 6 (faults w1) = true).
  { unfold w1. cbn [faults]. apply calm_iter. exact Hc. }
  assert (Hlookup : find_slug (template (parentSlug p)) PROJECT_GROUP
                      (committed (store w1)) = Some parent).
  { rewrite Hparent. exact Hfound. }
  pose proof (createProject_run p w1 parent Hpg Hpp Hwf1 Hc1 Hlookup) as Hrun2.
  cbv zeta in Hrun2.
  exists w1. eexists. split; [exact Hrun1|]. split; [exact Hrun2|].
  cbn [store committed open w1]. unfold w1. cbn [store committed open].
  rewrite <- app_assoc. split; reflexivity.
Qed.

Lemma createProject_under_new_group_witness :
  exists w1 w2,
    createProjectGroup acme empty_world = (Ok (Some (new_segment 1 acme)), w1)
    /\ createProject web w1 = (Ok (Some (new_segment 4 web)), w2).
Proof.
  destruct (createProject_under_new_group acme web "acme" empty_world
              eq_refl eq_refl eq_refl eq_refl ltac:(discriminate)
              eq_refl eq_refl eq_refl) as (w1 & w2 & H1 & H2 & _).
  exists w1, w2. split; [exact H1 | exact H2].
Defined.

(** X16: [createTransaction] is called outside the [try] blocks: when it throws,
    the three cascading methods throw the same error without calling
    [rollbackTransaction] or the repository's writes, and the store stays as
    it is. In [update] the same holds of the [findById] that comes first. *)
Theorem cascade_cannot_open_transaction d i u w e fs :
  (faults w = Some e :: fs ->
   (truthy (parentSlug d) = false ->
    truthy (grandparentSlug d) = false ->
    createProjectGroup d w = (Throw e, after_call CreateTransaction w))
   /\ (truthy (grandparentSlug d) = false ->
       truthy (parentSlug d) = true ->
       createProject d w = (Throw e, after_call CreateTransaction w))
   /\ update i u w = (Throw e, after_call (RepoFindById None i) w))
  /\ (faults w = None :: Some e :: fs ->
      exists w',
        update i u w = (Throw e, w')
        /\ calls w' = (calls w ++ [RepoFindById None i; CreateTransaction])%list
        /\ store w' = store w).
Proof.
  split.
  - intros Hf. split; [|split].
    + intros Hp Hg. unfold createProjectGroup. rewrite Hp, Hg. cbn [orb].
      unfold bind, createTransaction.
      rewrite (collaborator_fault _ _ _ e fs Hf). reflexivity.
    + intros Hg Hp. unfold createProject. rewrite Hp, Hg. cbn [negb].
      unfold bind, createTransaction.
      rewrite (collaborator_fault _ _ _ e fs Hf). reflexivity.
    + unfold update, bind, findById, repo_findById.
      rewrite (on_view_fault _ _ _ _ e fs Hf). reflexivity.
  - intros Hf. unfold update. unfold bind at 1.
    rewrite findById_ok by (rewrite Hf; reflexivity).
    unfold bind at 1, createTransaction.
    rewrite (collaborator_fault _ _ _ e fs)
      by (cbn; rewrite Hf; reflexivity).
    eexists. split; [reflexivity|].
    cbn. rewrite <- app_assoc. auto.
Qed.

Lemma cascade_cannot_open_transaction_witness :
  createProjectGroup acme
    (mkWorld empty_store no_options [Some (Failure "no connection")] [])
  = (Throw (Failure "no connection"),
     mkWorld empty_store no_options [] [CreateTransaction]).
Proof.
  destruct (cascade_cannot_open_transaction acme 1
              (mkUpdateData None None None None)
              (mkWorld empty_store no_options
                 [Some (Failure "no connection")] [])
              (Failure "no connection") []) as (H & _).
  destruct (H eq_refl) as (Hgroup & _).
  exact (Hgroup eq_refl eq_refl).
Defined.

(** X17: [update] with data that carries neither a name nor a slug never issues
    the bulk update of the children, whatever the level of the segment: it
    updates the one row inside a transaction, commits and returns the
    updated row. *)
Theorem update_without_rename i u w seg :
  find_segment i (committed (store w)) = Some seg ->
  store_wf (store w) = true ->
  calm 5 (faults w) = true ->
  truthy (u_name u) = false ->
  truthy (u_slug u) = false ->
  let t := next_tx (store w) in
  exists w',
    update i u w = (Ok (Some (apply_update u seg)), w')
    /\ calls w'
       = (calls w ++ [RepoFindById None i; CreateTransaction;
                      RepoUpdate (Some t) i u;
                      CommitTransaction t; RepoFindById None i])%list
    /\ committed (store w') = map_row i (apply_update u) (committed (store w))
    /\ open (store w') = open (store w).
Proof.
  intros Hfind Hwf Hc Hname Hslug t.
  pose proof (store_wf_fresh_tx _ Hwf) as Hfresh. fold t in Hfresh.
  pose proof (find_segment_id _ _ _ Hfind) as Hid.
  calm_next Hc H1. calm_next Hc H2. calm_next Hc H3.
  calm_next Hc H4. calm_next Hc H5.
  unfold update. unfold bind at 1. rewrite findById_ok by assumption.
  rewrite Hfind. unfold bind at 1.
  rewrite createTransaction_ok by assumption.
  cbn [after_call store options faults calls transaction]. fold t.
  unfold try_catch. unfold bind at 1.
  rewrite (repo_update_tx _ _ _ _ _ _ _ _ _ _ Hfresh i u seg) by assumption.
  unfold bind at 1, update_children.
  rewrite Hname, Hslug, andb_false_r. unfold ret.
  unfold bind at 1. rewrite commitTransaction_tx by assumption.
  rewrite findById_ok by assumption.
  cbn [store committed]. rewrite find_segment_map_row by reflexivity.
  rewrite Hfind. cbn [option_map]. rewrite Hid, Nat.eqb_refl.
  eexists. split; [reflexivity|].
  cbn. rewrite <- !app_assoc. auto.
Qed.

Lemma update_without_rename_witness :
  exists w',
    update 1 (only_activityChannels [("slack", ["general"])]) (acme_world [])
    = (Ok (Some (set_activityChannels [("slack", ["general"])]
                   (new_segment 1 acme))), w').
Proof.
  destruct (update_without_rename 1
              (only_activityChannels [("slack", ["general"])])
              (acme_world []) (new_segment 1 acme)
              eq_refl eq_refl eq_refl eq_refl eq_refl) as (w' & H & _).
  exists w'. exact H.
Defined.
